(** * pshs: the server bootstrap of [src/main.cxx]

    A shallow embedding of [main]: the command line is a [list string]
    ([argv]), every call into libevent, libc or one of the helper modules
    is recorded as an [event] of a trace, and whatever the outside world
    decides (allocation failures, the value of [random()], the external
    address, ...) is read from a [World] record.  The C library functions
    the argument loop relies on, [strtol] and [getopt_long], are modelled
    from their documented (glibc, LP64) behaviour. *)

From Stdlib Require Import ZArith List String Ascii Bool Lia.
From Stdlib Require Import DecimalString.
From Stdlib Require DecimalFacts DecimalPos.
Import ListNotations.

Open Scope string_scope.
Open Scope Z_scope.

(** ** The C library *)

Module Libc.

Definition code (c : ascii) : Z := Z.of_N (N_of_ascii c).

(** [isspace] in the POSIX locale. *)
Definition isspace (c : ascii) : bool :=
  (code c =? 32) || ((9 <=? code c) && (code c <=? 13)).

(** Value of an alphanumeric character as a digit (0-9, a-z, A-Z). *)
Definition digit_of (c : ascii) : option Z :=
  let n := code c in
  if (48 <=? n) && (n <=? 57) then Some (n - 48)
  else if (97 <=? n) && (n <=? 122) then Some (n - 87)
  else if (65 <=? n) && (n <=? 90) then Some (n - 55)
  else None.

Definition is_digit_in (base : Z) (c : ascii) : bool :=
  match digit_of c with
  | Some d => d <? base
  | None => false
  end.

Fixpoint skip_space (s : string) : string :=
  match s with
  | String c s' => if isspace c then skip_space s' else s
  | EmptyString => s
  end.

(** Longest run of digits of the base: the accumulated value, whether a
    digit was read at all, and the unread rest. *)
Fixpoint read_digits (base acc : Z) (any : bool) (s : string)
  : Z * bool * string :=
  match s with
  | String c s' =>
      match digit_of c with
      | Some d =>
          if d <? base then read_digits base (acc * base + d) true s'
          else (acc, any, s)
      | None => (acc, any, s)
      end
  | EmptyString => (acc, any, s)
  end.

Definition LONG_MAX : Z := 2 ^ 63 - 1.
Definition LONG_MIN : Z := - 2 ^ 63.

Definition clamp_long (v : Z) : Z :=
  if v <? LONG_MIN then LONG_MIN
  else if LONG_MAX <? v then LONG_MAX
  else v.

(** [strtol(nptr, &endptr, 0)]: the value and the string [endptr] points
    to.  Base 0 selects hexadecimal after [0x], octal after [0], decimal
    otherwise; without any digit the value is 0 and [endptr] is [nptr]. *)
Definition strtol (nptr : string) : Z * string :=
  let s := skip_space nptr in
  let '(neg, s1) :=
    match s with
    | String "-" t => (true, t)
    | String "+" t => (false, t)
    | _ => (false, s)
    end in
  let '(base, s2) :=
    match s1 with
    | String "0" (String x (String h t)) =>
        if ((x =? "x")%char || (x =? "X")%char) && is_digit_in 16 h
        then (16, String h t) else (8, s1)
    | String "0" _ => (8, s1)
    | _ => (10, s1)
    end in
  let '(v, any, rest) := read_digits base 0 false s2 in
  if any then (clamp_long (if neg then - v else v), rest)
  else (0, nptr).

(** Conversion of a [long] to [unsigned int]. *)
Definition to_unsigned_int (v : Z) : Z := v mod 2 ^ 32.

(** What [%d] and [operator<<] print for an integer. *)
Definition dec (z : Z) : string := NilZero.string_of_int (Z.to_int z).

End Libc.

(** ** getopt_long

    The scanner of the GNU C library in its default mode: options and
    operands may be mixed ([POSIXLY_CORRECT] is not set, the option string
    begins with a letter), long options may be abbreviated, and [argv] is
    permuted so that the operands come last. *)

Module Getopt.

Inductive has_arg_t := no_argument | required_argument.

(** [struct option], with [flag] always [NULL]. *)
Record option_t := mk_option
  { name : string; has_arg : has_arg_t; val : ascii }.

(** The scanner's hidden state: the elements of [argv] not yet looked at,
    the unread characters of the short-option element being scanned, and
    the operands passed over so far (the permutation moves them behind
    the options, in their order). *)
Record state := mk_state
  { rest : list string; nextchar : string; nonopts : list string }.

(** The complaints the scanner writes to the standard error stream
    ([opterr] is left at 1) before it returns ['?']. *)
Inductive diagnostic :=
| Invalid_option (c : ascii)
| Requires_argument (c : ascii)
| Unrecognized_option (nm : string)
| Ambiguous_option (nm : string)
| Argument_not_allowed (nm : string)
| Long_requires_argument (nm : string).

(** What one call returns: an option character with [optarg] and the
    state for the next call; ['?'] after a complaint; or -1, when
    [argv[optind..argc)] holds the operands. *)
Inductive result :=
| Opt (c : ascii) (optarg : option string) (st : state)
| Bad (d : diagnostic) (st : state)
| End (operands : list string).

Fixpoint optstring_lookup (c : ascii) (optstring : string)
  : option has_arg_t :=
  match optstring with
  | EmptyString => None
  | String d os =>
      if (d =? c)%char then
        Some (match os with
              | String ":" _ => required_argument
              | _ => no_argument
              end)
      else optstring_lookup c os
  end.

Definition short_option (optstring : string) (c : ascii) (more : string)
  (st : state) : result :=
  match (if (c =? ":")%char then None else optstring_lookup c optstring) with
  | None => Bad (Invalid_option c) (mk_state (rest st) more (nonopts st))
  | Some no_argument => Opt c None (mk_state (rest st) more (nonopts st))
  | Some required_argument =>
      match more with
      | String _ _ => Opt c (Some more) (mk_state (rest st) "" (nonopts st))
      | EmptyString =>
          match rest st with
          | a :: rest' => Opt c (Some a) (mk_state rest' "" (nonopts st))
          | [] => Bad (Requires_argument c) (mk_state [] "" (nonopts st))
          end
      end
  end.

(** [--name=value] is split at the first [=]. *)
Fixpoint split_eq (s : string) : string * option string :=
  match s with
  | EmptyString => (EmptyString, None)
  | String "=" v => (EmptyString, Some v)
  | String c s' => let (n, v) := split_eq s' in (String c n, v)
  end.

Inductive long_lookup := Found (o : option_t) | Ambiguous | Unknown.

Definition same_option (o o' : option_t) : bool :=
  (match has_arg o, has_arg o' with
   | no_argument, no_argument => true
   | required_argument, required_argument => true
   | _, _ => false
   end) && (val o =? val o')%char.

(** An exact name wins; otherwise an abbreviation has to be unambiguous. *)
Definition lookup_long (nm : string) (longopts : list option_t)
  : long_lookup :=
  match find (fun o => (name o =? nm)%string) longopts with
  | Some o => Found o
  | None =>
      match filter (fun o => String.prefix nm (name o)) longopts with
      | [] => Unknown
      | o :: others =>
          if forallb (same_option o) others then Found o else Ambiguous
      end
  end.

Definition long_option (longopts : list option_t) (body : string)
  (st : state) : result :=
  let (nm, eqarg) := split_eq body in
  match lookup_long nm longopts with
  | Found o =>
      match has_arg o, eqarg with
      | no_argument, None => Opt (val o) None st
      | no_argument, Some _ => Bad (Argument_not_allowed nm) st
      | required_argument, Some a => Opt (val o) (Some a) st
      | required_argument, None =>
          match rest st with
          | a :: rest' => Opt (val o) (Some a) (mk_state rest' "" (nonopts st))
          | [] => Bad (Long_requires_argument nm) st
          end
      end
  | Ambiguous => Bad (Ambiguous_option nm) st
  | Unknown => Bad (Unrecognized_option nm) st
  end.

(** Advance to the next element of [argv]: [--] ends the options, an
    element that is not an option is passed over. *)
Fixpoint next_element (optstring : string) (longopts : list option_t)
  (args nonopts : list string) : result :=
  match args with
  | [] => End nonopts
  | a :: args' =>
      match a with
      | String "-" (String "-" EmptyString) => End (nonopts ++ args')
      | String "-" (String "-" body) =>
          long_option longopts body (mk_state args' "" nonopts)
      | String "-" (String c more) =>
          short_option optstring c more (mk_state args' "" nonopts)
      | _ => next_element optstring longopts args' (nonopts ++ [a])
      end
  end.

Definition getopt_long (optstring : string) (longopts : list option_t)
  (st : state) : result :=
  match nextchar st with
  | String c more => short_option optstring c more st
  | EmptyString => next_element optstring longopts (rest st) (nonopts st)
  end.

(** The characters still to be scanned; every returned option uses up at
    least one. *)
Definition measure (st : state) : nat :=
  (String.length (nextchar st)
   + fold_right (fun a n => S (String.length a) + n) 0 (rest st))%nat.

End Getopt.

(** ** The program *)

Module Pshs.
Import Libc.

Definition nl : string := String "010" "".

(** A [char*]: [None] is the null pointer. *)
Definition cstr (p : option string) : string :=
  match p with Some s => s | None => "(null)" end.

Inductive signal := SIGINT | SIGTERM | SIGHUP | SIGUSR1 | SIGUSR2 | SIGPIPE.

Definition signo (s : signal) : Z :=
  match s with
  | SIGHUP => 1 | SIGINT => 2 | SIGUSR1 => 10
  | SIGUSR2 => 12 | SIGPIPE => 13 | SIGTERM => 15
  end.

Inductive handler := handle_file | handle_index.

(** [enum evhttp_cmd_type] of libevent and the bit of each method. *)
Inductive evhttp_cmd_type :=
| EVHTTP_REQ_GET
| EVHTTP_REQ_POST
| EVHTTP_REQ_HEAD
| EVHTTP_REQ_PUT
| EVHTTP_REQ_DELETE
| EVHTTP_REQ_OPTIONS
| EVHTTP_REQ_TRACE
| EVHTTP_REQ_CONNECT
| EVHTTP_REQ_PATCH.

Definition cmd_bit (m : evhttp_cmd_type) : Z :=
  match m with
  | EVHTTP_REQ_GET => Z.shiftl 1 0
  | EVHTTP_REQ_POST => Z.shiftl 1 1
  | EVHTTP_REQ_HEAD => Z.shiftl 1 2
  | EVHTTP_REQ_PUT => Z.shiftl 1 3
  | EVHTTP_REQ_DELETE => Z.shiftl 1 4
  | EVHTTP_REQ_OPTIONS => Z.shiftl 1 5
  | EVHTTP_REQ_TRACE => Z.shiftl 1 6
  | EVHTTP_REQ_CONNECT => Z.shiftl 1 7
  | EVHTTP_REQ_PATCH => Z.shiftl 1 8
  end.

(** Every call [main] makes that the outside can observe, in order. *)
Inductive event :=
| Setlocale
| Getopt_error (d : Getopt.diagnostic)
| Printf (s : string)
| Fprintf_stderr (s : string)
| Srandom
| Event_base_new (ok : bool)
| Event_base_free
| Evhttp_new (ok : bool)
| Evhttp_free
| Evhttp_set_allowed_methods (mask : Z)
| Evhttp_set_gencb (cb : handler)
| Evhttp_set_cb (uri : string) (cb : handler)
| Evhttp_bind_socket (ip : option string) (port : Z) (ok : bool)
| Init_charset (codeset : option string)
| ContentType_ctor
| ContentType_dtor
| ExternalIP_ctor (port : Z) (ip : option string) (upnp : Z)
| ExternalIP_dtor
| SSLMod_ctor (extip : option string) (ssl : Z)
| SSLMod_dtor
| Evhttp_encode_uri (s : string)
| Free (s : string)
| Print_qrcode (s : string)
| Evsignal_new (sig : signal) (ok : bool)
| Event_add (ev : option signal)
| Event_free (sig : signal)
| Signal_ignore (sig : signal) (ok : bool)
| Event_base_dispatch.

(** What [main] cannot decide itself: the macros of [config.h] and the
    results of the calls that can fail or that ask the environment. *)
Record World := mk_World
  { PACKAGE_STRING : string;
    HAVE_LIBMINIUPNPC : bool;
    HAVE_LIBSSL : bool;
    HAVE_NL_LANGINFO : bool;
    event_base_new_ok : bool;
    evhttp_new_ok : bool;
    random : Z;
    evhttp_bind_socket_ok : option string -> Z -> bool;
    nl_langinfo_codeset : string;
    external_ip : Z -> option string -> Z -> option string;
    evhttp_encode_uri : string -> option string;
    evsignal_new_ok : signal -> bool;
    signal_ok : bool }.

(** [random()] returns a value between 0 and 2^31 - 1. *)
Definition RAND_RANGE : Z := 2 ^ 31.

Inductive status :=
| Exited (code : Z)
| Threw_bad_alloc
| Undefined_behaviour
| Out_of_fuel.

(** *** Argument parsing (lines 62-158) *)

Definition optstring : string := "hVb:p:P:sU".

Definition opts : list Getopt.option_t :=
  [ Getopt.mk_option "help" Getopt.no_argument "h";
    Getopt.mk_option "version" Getopt.no_argument "V";
    Getopt.mk_option "bind" Getopt.required_argument "b";
    Getopt.mk_option "port" Getopt.required_argument "p";
    Getopt.mk_option "ssl" Getopt.no_argument "s";
    Getopt.mk_option "no-upnp" Getopt.no_argument "U" ].

Definition opt_help (w : World) (argv0 : string) : string :=
  "Usage: " ++ argv0 ++ " [options] file [...]" ++ nl
  ++ nl
  ++ "Options:" ++ nl
  ++ "    --help, -h           print this help message" ++ nl
  ++ "    --version, -V        print program version and exit" ++ nl
  ++ nl
  ++ (if HAVE_LIBMINIUPNPC w
      then "    --no-upnp, -U        disable port redirection using UPnP" ++ nl
      else "")
  ++ (if HAVE_LIBSSL w
      then "    --ssl, -s            enable SSL/TLS socket" ++ nl
      else "")
  ++ "    --bind IP, -b IP     bind the server to IP address" ++ nl
  ++ "    --port N, -p N       set port to listen on (default: random)" ++ nl
  ++ "    --prefix PFX, -P PFX require all URLs to start with the prefix PFX"
  ++ nl.

(** The configuration variables of [main]. *)
Record config := mk_config
  { prefix : option string;
    bindip : option string;
    port : Z;
    ssl : Z;
    upnp : Z }.

Definition default_config : config :=
  mk_config None (Some "0.0.0.0") 0 0 1.

Inductive step :=
| Continue (c : config)
| Return (out : list event) (code : Z)
| Crash.

Definition nonempty (s : string) : bool :=
  match s with String _ _ => true | EmptyString => false end.

(** The [switch (opt)] of the argument loop. *)
Definition switch (w : World) (argv0 : string) (opt : ascii)
  (optarg : option string) (c : config) : step :=
  match opt with
  | "b"%char => Continue (mk_config (prefix c) optarg (port c) (ssl c) (upnp c))
  | "p"%char =>
      match optarg with
      | None => Crash
      | Some a =>
          let (v, tmp) := strtol a in
          let port := to_unsigned_int v in
          if nonempty tmp || (port =? 0) || (0xffff <=? port)
          then Return [Fprintf_stderr ("Invalid port number: " ++ a ++ nl)] 1
          else Continue (mk_config (prefix c) (bindip c) port (ssl c) (upnp c))
      end
  | "P"%char => Continue (mk_config optarg (bindip c) (port c) (ssl c) (upnp c))
  | "s"%char => Continue (mk_config (prefix c) (bindip c) (port c) 1 (upnp c))
  | "U"%char => Continue (mk_config (prefix c) (bindip c) (port c) (ssl c) 0)
  | "V"%char => Return [Printf (PACKAGE_STRING w ++ nl)] 0
  | _ => Return [Printf (opt_help w argv0)] 0
  end.

(** [while ((opt = getopt_long(...)) != -1) switch (opt) ...]; the result
    is either the end of [main] or the configuration and the operands. *)
Fixpoint parse_loop (fuel : nat) (w : World) (argv0 : string)
  (st : Getopt.state) (c : config)
  : list event * (status + config * list string) :=
  match fuel with
  | O => ([], inl Out_of_fuel)
  | S fuel' =>
      match Getopt.getopt_long optstring opts st with
      | Getopt.End operands => ([], inr (c, operands))
      | Getopt.Opt opt optarg st' =>
          match switch w argv0 opt optarg c with
          | Continue c' => parse_loop fuel' w argv0 st' c'
          | Return out code => (out, inl (Exited code))
          | Crash => ([], inl Undefined_behaviour)
          end
      | Getopt.Bad d st' =>
          match switch w argv0 "?" None c with
          | Continue c' =>
              let (out, r) := parse_loop fuel' w argv0 st' c' in
              (Getopt_error d :: out, r)
          | Return out code => (Getopt_error d :: out, inl (Exited code))
          | Crash => ([Getopt_error d], inl Undefined_behaviour)
          end
      end
  end.

(** [if (argv[i][0] == '.' && argv[i][1] == '/') argv[i] += 2;] *)
Definition strip_dot_slash (a : string) : string :=
  match a with
  | String "." (String "/" a') => a'
  | _ => a
  end.

Definition parse_args (w : World) (argv0 : string) (args : list string)
  : list event * (status + config * list string) :=
  let st := Getopt.mk_state args "" [] in
  match parse_loop (S (Getopt.measure st)) w argv0 st default_config with
  | (out, inl s) => (out, inl s)
  | (out, inr (c, operands)) =>
      match operands with
      | [] =>
          ((out ++ [Fprintf_stderr (opt_help w argv0)])%list, inl (Exited 1))
      | _ :: _ => (out, inr (c, map strip_dot_slash operands))
      end
  end.

(** *** Locals with destructors, and the monad of [main]'s body *)

(** The objects of [main] whose destructor does something; a
    [unique_ptr] remembers whether it holds a pointer. *)
Inductive local :=
| L_evb (held : bool)
| L_http (held : bool)
| L_ct
| L_extip
| L_ssl_mod
| L_sigevents (a : list (option signal)).

Definition free_sigevent (p : option signal) : list event :=
  match p with Some s => [Event_free s] | None => [] end.

(** An array destroys its elements from the last to the first. *)
Definition destroy (l : local) : list event :=
  match l with
  | L_evb held => if held then [Event_base_free] else []
  | L_http held => if held then [Evhttp_free] else []
  | L_ct => [ContentType_dtor]
  | L_extip => [ExternalIP_dtor]
  | L_ssl_mod => [SSLMod_dtor]
  | L_sigevents a => flat_map free_sigevent (List.rev a)
  end.

(** A computation runs in a frame (the live locals, the latest first),
    writes a trace, and either leaves [main] or goes on with a value. *)
Definition M (A : Type) : Type :=
  list local -> list event * (status + A * list local).

Definition ret {A} (a : A) : M A := fun fr => ([], inr (a, fr)).

Definition bind {A B} (m : M A) (k : A -> M B) : M B :=
  fun fr =>
    let r := m fr in
    match snd r with
    | inl s => (fst r, inl s)
    | inr (a, fr') => ((fst r ++ fst (k a fr'))%list, snd (k a fr'))
    end.

Notation "x <- m ;; k" := (bind m (fun x => k))
  (at level 61, m at next level, right associativity).
Notation "m ;; k" := (bind m (fun _ => k))
  (at level 61, right associativity).

Definition emit (e : event) : M unit := fun fr => ([e], inr (tt, fr)).

Definition declare (l : local) : M unit := fun fr => ([], inr (tt, l :: fr)).

(** [return code;] runs the destructors of the frame, the latest local
    first. *)
Definition return_ {A} (code : Z) : M A :=
  fun fr => (flat_map destroy fr, inl (Exited code)).

(** An exception nobody catches: the program is terminated at once. *)
Definition throw_bad_alloc {A} : M A := fun _ => ([], inl Threw_bad_alloc).

Fixpoint set_nth {A} (i : nat) (v : A) (l : list A) : list A :=
  match l, i with
  | [], _ => []
  | _ :: l', O => v :: l'
  | x :: l', S i' => x :: set_nth i' v l'
  end.

(** [sigevents[i] = p] and [sigevents[i].get()]. *)
Fixpoint assign_in_frame (i : nat) (p : option signal) (fr : list local)
  : list local :=
  match fr with
  | [] => []
  | L_sigevents a :: fr' => L_sigevents (set_nth i p a) :: fr'
  | l :: fr' => l :: assign_in_frame i p fr'
  end.

Fixpoint read_in_frame (i : nat) (fr : list local) : option signal :=
  match fr with
  | [] => None
  | L_sigevents a :: _ => nth i a None
  | _ :: fr' => read_in_frame i fr'
  end.

Definition assign_sigevent (i : nat) (p : option signal) : M unit :=
  fun fr => ([], inr (tt, assign_in_frame i p fr)).

Definition get_sigevent (i : nat) : M (option signal) :=
  fun fr => ([], inr (read_in_frame i fr, fr)).

Fixpoint for_each {A} (l : list A) (body : A -> M unit) : M unit :=
  match l with
  | [] => ret tt
  | x :: l' => body x ;; for_each l' body
  end.

(** *** The server (lines 160-272) *)

Definition sigs : list signal := [SIGINT; SIGTERM; SIGHUP; SIGUSR1; SIGUSR2].

(** The URI of the index callback (lines 187-195). *)
Definition index_uri (prefix : option string) : string :=
  match prefix with
  | None => "/"
  | Some p => "/" ++ p ++ "/"
  end.

Definition register_routes (c : config) : M unit :=
  emit (Evhttp_set_allowed_methods
          (Z.lor (cmd_bit EVHTTP_REQ_GET) (cmd_bit EVHTTP_REQ_HEAD))) ;;
  emit (Evhttp_set_gencb handle_file) ;;
  emit (Evhttp_set_cb (index_uri (prefix c)) handle_index).

(** [port = random() % 0x7bff + 0x400], assigned to an [unsigned int]. *)
Definition random_port (r : Z) : Z :=
  to_unsigned_int (Z.rem r 0x7bff + 0x400).

Definition choose_port (w : World) (port : Z) : Z :=
  if port =? 0 then random_port (random w) else port.

(** The URL written when an external address is known (lines 230-244);
    [urlenc] is the encoded file name when there is exactly one file. *)
Definition server_uri (c : config) (addr : string) (port : Z)
  (urlenc : option string) : string :=
  let uri := "http" in
  let uri := if ssl c =? 0 then uri else uri ++ "s" in
  let uri := uri ++ "://" ++ addr ++ ":" ++ dec port ++ "/" in
  let uri := match prefix c with
             | Some p => uri ++ p ++ "/"
             | None => uri
             end in
  match urlenc with
  | Some e => uri ++ e
  | None => uri
  end.

Definition encode_single (w : World) (files : list string)
  : M (option string) :=
  match files with
  | [f] =>
      emit (Evhttp_encode_uri f) ;;
      match evhttp_encode_uri w f with
      | None => throw_bad_alloc
      | Some e => ret (Some e)
      end
  | _ => ret None
  end.

Definition announce (w : World) (c : config) (port : Z)
  (files : list string) (addr : option string) : M unit :=
  emit (Fprintf_stderr
          ("Ready to share " ++ dec (Z.of_nat (List.length files))
           ++ " files." ++ nl)) ;;
  emit (Fprintf_stderr
          ("Bound to " ++ cstr (bindip c) ++ ":" ++ dec port ++ "." ++ nl)) ;;
  match addr with
  | Some a =>
      urlenc <- encode_single w files ;;
      let uri := server_uri c a port urlenc in
      match urlenc with Some e => emit (Free e) | None => ret tt end ;;
      emit (Fprintf_stderr ("Server reachable at: " ++ uri ++ nl)) ;;
      emit (Print_qrcode uri)
  | None => ret tt
  end.

(** One turn of the loop of lines 254-261.  The [else] has an empty
    statement, so that [event_add] is not part of it. *)
Definition install_handler (w : World) (i : nat) : M unit :=
  let sig := nth i sigs SIGINT in
  let ok := evsignal_new_ok w sig in
  emit (Evsignal_new sig ok) ;;
  assign_sigevent i (if ok then Some sig else None) ;;
  p <- get_sigevent i ;;
  match p with
  | None =>
      emit (Fprintf_stderr ("evsignal_new(" ++ dec (signo sig) ++ ") failed." ++ nl))
  | Some _ => ret tt
  end ;;
  p <- get_sigevent i ;;
  emit (Event_add p).

Definition init_signal_handlers (w : World) : M unit :=
  declare (L_sigevents (repeat None (List.length sigs))) ;;
  for_each (seq 0 (List.length sigs)) (install_handler w).

Definition codeset (w : World) : option string :=
  if HAVE_NL_LANGINFO w then
    if nonempty (nl_langinfo_codeset w) then Some (nl_langinfo_codeset w)
    else None
  else None.

Definition serve (w : World) (c : config) (files : list string) : M unit :=
  emit Srandom ;;
  emit (Event_base_new (event_base_new_ok w)) ;;
  declare (L_evb (event_base_new_ok w)) ;;
  if negb (event_base_new_ok w) then
    emit (Fprintf_stderr ("event_base_new() failed." ++ nl)) ;; return_ 1
  else
  emit (Evhttp_new (evhttp_new_ok w)) ;;
  declare (L_http (evhttp_new_ok w)) ;;
  if negb (evhttp_new_ok w) then
    emit (Fprintf_stderr ("evhttp_new() failed." ++ nl)) ;; return_ 1
  else
  register_routes c ;;
  let port := choose_port w (port c) in
  let bound := evhttp_bind_socket_ok w (bindip c) port in
  emit (Evhttp_bind_socket (bindip c) port bound) ;;
  if negb bound then
    emit (Fprintf_stderr
            ("evhttp_bind_socket(" ++ cstr (bindip c) ++ ", " ++ dec port
             ++ ") failed." ++ nl)) ;;
    return_ 1
  else
  emit (Init_charset (codeset w)) ;;
  emit ContentType_ctor ;; declare L_ct ;;
  emit (ExternalIP_ctor port (bindip c) (upnp c)) ;; declare L_extip ;;
  let addr := external_ip w port (bindip c) (upnp c) in
  emit (SSLMod_ctor addr (ssl c)) ;; declare L_ssl_mod ;;
  announce w c port files addr ;;
  init_signal_handlers w ;;
  emit (Signal_ignore SIGPIPE (signal_ok w)) ;;
  (if signal_ok w then ret tt
   else emit (Fprintf_stderr
                "warning: unable to override SIGPIPE, may terminateon interrupted connections.")) ;;
  emit Event_base_dispatch ;;
  return_ 0.

(** [main]: the trace and how the process ends.  [argv] holds at least
    the program name. *)
Definition main (w : World) (argv : list string) : list event * status :=
  match argv with
  | [] => ([], Undefined_behaviour)
  | argv0 :: args =>
      match parse_args w argv0 args with
      | (out, inl s) => (Setlocale :: out, s)
      | (out, inr (c, files)) =>
          match serve w c files [] with
          | (t, inl s) => ((Setlocale :: out ++ t)%list, s)
          | (t, inr _) => ((Setlocale :: out ++ t)%list, Undefined_behaviour)
          end
      end
  end.

(** *** What libevent does with the registrations *)

Record evhttp := mk_evhttp
  { allowed_methods : Z;
    gencb : option handler;
    callbacks : list (string * handler) }.

(** A new [evhttp] allows GET, POST, HEAD, PUT and DELETE. *)
Definition evhttp_new : evhttp :=
  mk_evhttp
    (Z.lor (cmd_bit EVHTTP_REQ_GET)
       (Z.lor (cmd_bit EVHTTP_REQ_POST)
          (Z.lor (cmd_bit EVHTTP_REQ_HEAD)
             (Z.lor (cmd_bit EVHTTP_REQ_PUT) (cmd_bit EVHTTP_REQ_DELETE)))))
    None [].

Definition configure (h : evhttp) (e : event) : evhttp :=
  match e with
  | Evhttp_set_allowed_methods m => mk_evhttp m (gencb h) (callbacks h)
  | Evhttp_set_gencb cb => mk_evhttp (allowed_methods h) (Some cb) (callbacks h)
  | Evhttp_set_cb uri cb =>
      if existsb (fun '(u, _) => (u =? uri)%string) (callbacks h) then h
      else mk_evhttp (allowed_methods h) (gencb h)
             (callbacks h ++ [(uri, cb)])%list
  | _ => h
  end.

Definition evhttp_of (t : list event) : evhttp := fold_left configure t evhttp_new.

Inductive response := Method_rejected | Handled_by (cb : handler) | Not_found.

(** A request with an allowed method goes to the callback registered for
    exactly its path, and to the generic callback otherwise. *)
Definition evhttp_handle_request (h : evhttp) (method : evhttp_cmd_type)
  (path : string) : response :=
  if Z.land (cmd_bit method) (allowed_methods h) =? 0 then Method_rejected
  else
    match find (fun '(u, _) => (u =? path)%string) (callbacks h) with
    | Some (_, cb) => Handled_by cb
    | None =>
        match gencb h with
        | Some cb => Handled_by cb
        | None => Not_found
        end
    end.

(** *** Reading a trace *)

(** The events after the blocking dispatch has returned. *)
Fixpoint after_dispatch (t : list event) : list event :=
  match t with
  | [] => []
  | Event_base_dispatch :: t' => t'
  | _ :: t' => after_dispatch t'
  end.

Inductive resource := Watcher | Listener | Tls_context | Event_loop.

Definition released (e : event) : option resource :=
  match e with
  | Event_free _ => Some Watcher
  | Evhttp_free => Some Listener
  | SSLMod_dtor => Some Tls_context
  | Event_base_free => Some Event_loop
  | _ => None
  end.

Definition resource_eqb (a b : resource) : bool :=
  match a, b with
  | Watcher, Watcher | Listener, Listener
  | Tls_context, Tls_context | Event_loop, Event_loop => true
  | _, _ => false
  end.

Fixpoint rank (order : list resource) (r : resource) : nat :=
  match order with
  | [] => O
  | r' :: order' => if resource_eqb r' r then O else S (rank order' r)
  end.

(** The resources a trace releases, one entry per release. *)
Fixpoint releases (t : list event) : list resource :=
  match t with
  | [] => []
  | e :: t' =>
      match released e with
      | Some r => r :: releases t'
      | None => releases t'
      end
  end.

Fixpoint nondecreasing (l : list nat) : bool :=
  match l with
  | a :: ((b :: _) as l') => (a <=? b)%nat && nondecreasing l'
  | _ => true
  end.

(** A trace releases in the given order when no resource is released
    after one that comes later in the order. *)
Definition releases_in_order (order : list resource) (t : list event) : bool :=
  nondecreasing (map (rank order) (releases t)).

(** The port a trace binds the listener to. *)
Fixpoint bound_port (t : list event) : option Z :=
  match t with
  | [] => None
  | Evhttp_bind_socket _ p _ :: _ => Some p
  | _ :: t' => bound_port t'
  end.

(** The URL a trace announces. *)
Fixpoint announced (t : list event) : option string :=
  match t with
  | [] => None
  | Print_qrcode u :: _ => Some u
  | _ :: t' => announced t'
  end.

End Pshs.

(** ** Notions the properties are stated with *)

Module Props.
Import Libc Pshs.

(** A world in which every call succeeds. *)
Definition sample_world : World :=
  mk_World "pshs 0.3.4" true true true true true 123456789
    (fun _ _ => true) "UTF-8"
    (fun _ _ _ => Some "198.51.100.7") (fun f => Some f)
    (fun _ => true) true.

(** The same world, without memory for the watcher of [SIGHUP]. *)
Definition sighup_fails : World :=
  mk_World "pshs 0.3.4" true true true true true 123456789
    (fun _ _ => true) "UTF-8"
    (fun _ _ _ => Some "198.51.100.7") (fun f => Some f)
    (fun s => match s with SIGHUP => false | _ => true end) true.

(** An element of [argv] the scanner passes over as an operand. *)
Definition operand (a : string) : bool :=
  match a with
  | String "-" (String _ _) => false
  | _ => true
  end.

(** An element that is a flag of no option: a single dash and a letter
    that is none of h, V, b, p, P, s, U, or two dashes and a name (up to
    an [=]) that begins none of the long option names. *)
Definition unknown_flag (a : string) : bool :=
  match a with
  | String "-" (String "-" EmptyString) => false
  | String "-" (String "-" body) =>
      negb (existsb
              (fun o => String.prefix (fst (Getopt.split_eq body))
                          (Getopt.name o))
              opts)
  | String "-" (String c _) =>
      negb (existsb (Ascii.eqb c) ["h"; "V"; "b"; "p"; "P"; "s"; "U"]%char)
  | _ => false
  end.

(** Elements the loop goes past without leaving [main]: operands and
    the two flags without argument. *)
Definition harmless (a : string) : bool :=
  operand a || (a =? "-s")%string || (a =? "-U")%string
  || (a =? "--ssl")%string || (a =? "--no-upnp")%string.

(** How many of the 2^31 values of [random()] give the port [p]. *)
Definition weight (p : Z) : Z :=
  if p - 1024 <? 6212 then 67653 else 67652.

(** The watchers after the loop of lines 254-261. *)
Definition installed (w : World) : list (option signal) :=
  map (fun s => if evsignal_new_ok w s then Some s else None) sigs.

(** The URL as section 4.5 describes it. *)
Definition spec_uri (w : World) (c : config) (addr : string) (port : Z)
  (files : list string) : string :=
  (if ssl c =? 0 then "http" else "https")
  ++ "://" ++ addr ++ ":" ++ dec port ++ "/"
  ++ match prefix c with Some p => p ++ "/" | None => "" end
  ++ match files with
     | [f] => match evhttp_encode_uri w f with Some e => e | None => "" end
     | _ => ""
     end.

Definition with_port (c : config) (p : Z) : config :=
  mk_config (prefix c) (bindip c) p (ssl c) (upnp c).

(** The scanner's state after a call that returned an option. *)
Definition next_state (r : Getopt.result) : option Getopt.state :=
  match r with
  | Getopt.Opt _ _ st | Getopt.Bad _ st => Some st
  | Getopt.End _ => None
  end.

(** What the loop of lines 254-261 does for one signal. *)
Definition watcher_events (w : World) (sig : signal) : list event :=
  if evsignal_new_ok w sig
  then [Evsignal_new sig true; Event_add (Some sig)]
  else [Evsignal_new sig false;
        Fprintf_stderr ("evsignal_new(" ++ dec (signo sig) ++ ") failed." ++ nl);
        Event_add None].

(** How often a trace arms a watcher. *)
Fixpoint armings (t : list event) : nat :=
  match t with
  | [] => O
  | Event_add _ :: t' => S (armings t')
  | _ :: t' => armings t'
  end.

(** The locals alive while the server runs, the latest first. *)
Definition serving_frame : list local :=
  [L_ssl_mod; L_extip; L_ct; L_http true; L_evb true].

End Props.

(** ** The signal handler (lines 43-60) *)

Module Handler.
Import Libc Pshs.

(** What the handler does: a line on the standard error stream, and the
    request to leave the event loop. *)
Inductive action :=
| Stderr (line : string)
| Event_base_loopbreak.

(** The [switch (fd)] over the signal number. *)
Definition signal_name (fd : Z) : string :=
  if fd =? signo SIGINT then "SIGINT"
  else if fd =? signo SIGTERM then "SIGTERM"
  else if fd =? signo SIGHUP then "SIGHUP"
  else if fd =? signo SIGUSR1 then "SIGUSR1"
  else if fd =? signo SIGUSR2 then "SIGUSR2"
  else "unknown".

Definition term_handler (fd : Z) : list action :=
  [Stderr ("Terminating due to signal " ++ signal_name fd ++ "." ++ nl);
   Event_base_loopbreak].

End Handler.

(** ** Notions for whole runs *)

Module Runs.
Import Libc Pshs Props.

(** The name of a signal as it is written in C. *)
Definition symbol (s : signal) : string :=
  match s with
  | SIGINT => "SIGINT" | SIGTERM => "SIGTERM" | SIGHUP => "SIGHUP"
  | SIGUSR1 => "SIGUSR1" | SIGUSR2 => "SIGUSR2" | SIGPIPE => "SIGPIPE"
  end.

(** The two switches of the command line. *)
Definition asks_ssl (a : string) : bool :=
  (a =? "-s")%string || (a =? "--ssl")%string.

Definition asks_no_upnp (a : string) : bool :=
  (a =? "-U")%string || (a =? "--no-upnp")%string.

(** The configuration a command line of operands and switches asks for. *)
Definition switches (args : list string) : config :=
  mk_config None (Some "0.0.0.0") 0
    (if existsb asks_ssl args then 1 else 0)
    (if existsb asks_no_upnp args then 0 else 1).

(** One switch at a time, from any configuration. *)
Definition step_switch (c : config) (a : string) : config :=
  if asks_ssl a then mk_config (prefix c) (bindip c) (port c) 1 (upnp c)
  else if asks_no_upnp a then mk_config (prefix c) (bindip c) (port c) (ssl c) 0
  else c.

(** What holds of every configuration the argument loop produces. *)
Definition well_formed (c : config) : Prop :=
  bindip c <> None
  /\ (port c = 0 \/ 1 <= port c <= 65534)
  /\ (ssl c = 0 \/ ssl c = 1)
  /\ (upnp c = 0 \/ upnp c = 1).

(** The characters of a list of arguments, one more for each. *)
Definition size (args : list string) : nat :=
  fold_right (fun a n => S (String.length a) + n)%nat O args.

(** The end of [main] for given operands: without any, the usage on the
    standard error stream and exit code 1. *)
Definition parsed (w : World) (argv0 : string) (c : config)
  (operands : list string) : list event * (status + config * list string) :=
  match operands with
  | [] => ([Fprintf_stderr (opt_help w argv0)], inl (Exited 1))
  | _ :: _ => ([], inr (c, map strip_dot_slash operands))
  end.

(** Events that only write to a stream. *)
Definition is_output (e : event) : bool :=
  match e with
  | Getopt_error _ | Printf _ | Fprintf_stderr _ => true
  | _ => false
  end.

(** The resources with a life time, and the events that begin and end
    it. *)
Inductive tracked :=
| T_evb | T_http | T_ct | T_extip | T_ssl_mod | T_sigevent (s : signal).

Definition acquires (e : event) : option tracked :=
  match e with
  | Event_base_new true => Some T_evb
  | Evhttp_new true => Some T_http
  | ContentType_ctor => Some T_ct
  | ExternalIP_ctor _ _ _ => Some T_extip
  | SSLMod_ctor _ _ => Some T_ssl_mod
  | Evsignal_new s true => Some (T_sigevent s)
  | _ => None
  end.

Definition frees (e : event) : option tracked :=
  match e with
  | Event_base_free => Some T_evb
  | Evhttp_free => Some T_http
  | ContentType_dtor => Some T_ct
  | ExternalIP_dtor => Some T_extip
  | SSLMod_dtor => Some T_ssl_mod
  | Event_free s => Some (T_sigevent s)
  | _ => None
  end.

Fixpoint collect {A} (f : event -> option A) (t : list event) : list A :=
  match t with
  | [] => []
  | e :: t' =>
      match f e with
      | Some a => a :: collect f t'
      | None => collect f t'
      end
  end.

(** The lines of the announcement. *)
Definition ready_line (files : list string) : event :=
  Fprintf_stderr
    ("Ready to share " ++ dec (Z.of_nat (List.length files)) ++ " files." ++ nl).

Definition bound_line (c : config) (p : Z) : event :=
  Fprintf_stderr ("Bound to " ++ cstr (bindip c) ++ ":" ++ dec p ++ "." ++ nl).

Definition reachable_line (u : string) : event :=
  Fprintf_stderr ("Server reachable at: " ++ u ++ nl).

(** Whether the announcement ends in [bad_alloc]: an address is known,
    one file is served, and its name cannot be encoded. *)
Definition encoding_fails (w : World) (files : list string)
  (addr : option string) : bool :=
  match addr, files with
  | Some _, [f] =>
      match evhttp_encode_uri w f with Some _ => false | None => true end
  | _, _ => false
  end.

(** The events of a start that gets as far as the announcement, for the
    port [p] and the external address [addr]. *)
Definition startup_events (w : World) (c : config) (p : Z)
  (addr : option string) : list event :=
  [Srandom; Event_base_new true; Evhttp_new true;
   Evhttp_set_allowed_methods
     (Z.lor (cmd_bit EVHTTP_REQ_GET) (cmd_bit EVHTTP_REQ_HEAD));
   Evhttp_set_gencb handle_file;
   Evhttp_set_cb (index_uri (prefix c)) handle_index;
   Evhttp_bind_socket (bindip c) p true;
   Init_charset (codeset w);
   ContentType_ctor;
   ExternalIP_ctor p (bindip c) (upnp c);
   SSLMod_ctor addr (ssl c)].

(** The events of the announcement, written out. *)
Definition announcement (w : World) (c : config) (p : Z)
  (files : list string) (addr : option string) : list event :=
  ready_line files :: bound_line c p
  :: match addr with
     | None => []
     | Some a =>
         let u := spec_uri w c a p files in
         match files with
         | [f] =>
             Evhttp_encode_uri f
             :: match evhttp_encode_uri w f with
                | Some e => [Free e; reachable_line u; Print_qrcode u]
                | None => []
                end
         | _ => [reachable_line u; Print_qrcode u]
         end
     end.

(** The events from the installation of the watchers to the end. *)
Definition running_events (w : World) : list event :=
  (flat_map (watcher_events w) sigs
   ++ Signal_ignore SIGPIPE (signal_ok w)
   :: (if signal_ok w then []
       else [Fprintf_stderr
               "warning: unable to override SIGPIPE, may terminateon interrupted connections."])
   ++ Event_base_dispatch
   :: flat_map free_sigevent (List.rev (installed w))
   ++ [SSLMod_dtor; ExternalIP_dtor; ContentType_dtor;
       Evhttp_free; Event_base_free])%list.


(** The run of the server, written out case by case. *)
Definition serve_closed (w : World) (c : config) (files : list string)
  : list event * status :=
  let p := choose_port w (port c) in
  let addr := external_ip w p (bindip c) (upnp c) in
  if negb (event_base_new_ok w) then
    ([Srandom; Event_base_new false;
      Fprintf_stderr ("event_base_new() failed." ++ nl)], Exited 1)
  else if negb (evhttp_new_ok w) then
    ([Srandom; Event_base_new true; Evhttp_new false;
      Fprintf_stderr ("evhttp_new() failed." ++ nl);
      Event_base_free], Exited 1)
  else if negb (evhttp_bind_socket_ok w (bindip c) p) then
    ([Srandom; Event_base_new true; Evhttp_new true;
      Evhttp_set_allowed_methods
        (Z.lor (cmd_bit EVHTTP_REQ_GET) (cmd_bit EVHTTP_REQ_HEAD));
      Evhttp_set_gencb handle_file;
      Evhttp_set_cb (index_uri (prefix c)) handle_index;
      Evhttp_bind_socket (bindip c) p false;
      Fprintf_stderr
        ("evhttp_bind_socket(" ++ cstr (bindip c) ++ ", " ++ dec p
         ++ ") failed." ++ nl);
      Evhttp_free; Event_base_free], Exited 1)
  else if encoding_fails w files addr then
    ((startup_events w c p addr ++ announcement w c p files addr)%list,
     Threw_bad_alloc)
  else
    ((startup_events w c p addr ++ announcement w c p files addr
      ++ running_events w)%list, Exited 0).

(** The events before the listener is bound. *)
Fixpoint before_bind (t : list event) : list event :=
  match t with
  | [] => []
  | Evhttp_bind_socket _ _ _ :: _ => []
  | e :: t' => e :: before_bind t'
  end.

(** The configuration of the listener when [main] is through with it. *)
Definition routes (c : config) : evhttp :=
  mk_evhttp (Z.lor (cmd_bit EVHTTP_REQ_GET) (cmd_bit EVHTTP_REQ_HEAD))
    (Some handle_file) [(index_uri (prefix c), handle_index)].

End Runs.

(** ** Properties *)

Import Libc Pshs Props.

Lemma app_string_assoc (a b c : string) : (a ++ b) ++ c = a ++ (b ++ c).
Proof. induction a as [|x a IH]; simpl; [reflexivity | now rewrite IH]. Qed.

Lemma app_string_nil (a : string) : a ++ "" = a.
Proof. induction a as [|x a IH]; simpl; [reflexivity | now rewrite IH]. Qed.

(** *** The argument loop *)

Lemma measure_bound (args : list string) (nc : string) (no : list string) :
  (List.length args <= Getopt.measure (Getopt.mk_state args nc no))%nat.
Proof.
  unfold Getopt.measure; simpl.
  induction args as [|a args IH]; simpl; lia.
Qed.

(** C10: the normalization of a file operand removes the two characters
    of one leading "./" and nothing else, once: "./a.txt" becomes "a.txt",
    "././a.txt" becomes "./a.txt", and an operand that does not begin
    with "./" ("../a.txt", ".", the empty string, ...) is unchanged; the
    files served are the operands normalized this way. *)
Theorem C10_strip_dot_slash_once :
  strip_dot_slash "./a.txt" = "a.txt"
  /\ strip_dot_slash "././a.txt" = "./a.txt"
  /\ strip_dot_slash "../a.txt" = "../a.txt"
  /\ strip_dot_slash "." = "."
  /\ strip_dot_slash "" = ""
  /\ (forall t, strip_dot_slash ("./" ++ t) = t)
  /\ (forall a, strip_dot_slash a =
                if String.prefix "./" a then substring 2 (String.length a - 2) a
                else a)
  /\ (forall w argv0,
        parse_args w argv0 ["././a.txt"; "./b"; "../c"; "."; ""]
        = ([], inr (default_config, ["./a.txt"; "b"; "../c"; "."; ""]))).
Proof.
  repeat split; try reflexivity.
  intros a. destruct a as [|c a]; [reflexivity|].
  destruct a as [|d a].
  - destruct c as [[] [] [] [] [] [] [] []]; reflexivity.
  - assert (Hsub : forall s, substring 0 (String.length s) s = s).
    { induction s as [|x s IH]; simpl; [reflexivity | now rewrite IH]. }
    destruct c as [[] [] [] [] [] [] [] []]; try reflexivity;
      destruct d as [[] [] [] [] [] [] [] []]; try reflexivity.
    simpl. rewrite Nat.sub_0_r, Hsub. now destruct a.
Qed.

(** C1: [--prefix] is not in the table of long options although the help
    text announces it: whatever follows, the scanner complains, [main]
    prints the usage and ends with 0, and no prefix is set; [-P] sets it. *)
Theorem C1_long_prefix_not_recognized :
  forall w argv0 rest,
    main w (argv0 :: "--prefix" :: rest)
    = ([Setlocale;
        Getopt_error (Getopt.Unrecognized_option "prefix");
        Printf (opt_help w argv0)], Exited 0)
    /\ parse_args w argv0 ["-P"; "foo"; "file"]
       = ([], inr (mk_config (Some "foo") (Some "0.0.0.0") 0 0 1, ["file"]))
    /\ exists before,
         opt_help w argv0
         = before
           ++ "    --prefix PFX, -P PFX require all URLs to start with the prefix PFX"
           ++ nl.
Proof.
  intros w argv0 rest. split; [reflexivity | split; [reflexivity |]].
  unfold opt_help. rewrite <- !app_string_assoc.
  eexists. apply app_string_assoc.
Qed.

Lemma parse_loop_S fuel w argv0 st c :
  parse_loop (S fuel) w argv0 st c
  = match Getopt.getopt_long optstring opts st with
    | Getopt.End operands => ([], inr (c, operands))
    | Getopt.Opt opt optarg st' =>
        match switch w argv0 opt optarg c with
        | Continue c' => parse_loop fuel w argv0 st' c'
        | Return out code => (out, inl (Exited code))
        | Crash => ([], inl Undefined_behaviour)
        end
    | Getopt.Bad d st' =>
        match switch w argv0 "?" None c with
        | Continue c' =>
            let (out, r) := parse_loop fuel w argv0 st' c' in
            (Getopt_error d :: out, r)
        | Return out code => (Getopt_error d :: out, inl (Exited code))
        | Crash => ([Getopt_error d], inl Undefined_behaviour)
        end
    end.
Proof. reflexivity. Qed.

Ltac bits c := destruct c as [[] [] [] [] [] [] [] []].

Lemma next_element_operand a args no :
  operand a = true ->
  Getopt.next_element optstring opts (a :: args) no
  = Getopt.next_element optstring opts args (no ++ [a]).
Proof.
  intros H. destruct a as [|c [|d a]]; [reflexivity | |].
  - bits c; reflexivity.
  - bits c; try reflexivity. discriminate H.
Qed.

Lemma prefix_refl s : String.prefix s s = true.
Proof.
  induction s as [|c s IH]; [reflexivity|].
  cbn. destruct (ascii_dec c c); [assumption | congruence].
Qed.

Lemma lookup_long_unknown nm :
  existsb (fun o => String.prefix nm (Getopt.name o)) opts = false ->
  Getopt.lookup_long nm opts = Getopt.Unknown.
Proof.
  unfold opts, Getopt.lookup_long. cbn [existsb find filter Getopt.name].
  intros H. repeat (apply orb_false_elim in H as [? H]).
  repeat match goal with
         | |- context [(?n =? nm)%string] =>
             destruct (String.eqb_spec n nm);
             [subst nm; rewrite prefix_refl in *; discriminate|]
         end.
  repeat match goal with
         | E : String.prefix nm _ = false |- _ => rewrite E; clear E
         end.
  reflexivity.
Qed.

Lemma next_element_unknown a args no :
  unknown_flag a = true ->
  exists d st, Getopt.next_element optstring opts (a :: args) no = Getopt.Bad d st.
Proof.
  intros H. destruct a as [|c [|d body]]; try discriminate H.
  - bits c; discriminate H.
  - bits c; try discriminate H.
    bits d; try discriminate H;
      try (cbn in H |- *; do 2 eexists; reflexivity).
    destruct body as [|e body]; [discriminate H|].
    cbn [unknown_flag] in H. cbn [Getopt.next_element].
    unfold Getopt.long_option.
    destruct (Getopt.split_eq (String e body)) as [nm eqarg].
    cbn [fst] in H. apply negb_true_iff in H.
    rewrite (lookup_long_unknown nm H).
    do 2 eexists; reflexivity.
Qed.

Lemma parse_loop_unknown w argv0 flag rest :
  unknown_flag flag = true ->
  forall pre, forallb harmless pre = true ->
  forall fuel c no, (List.length pre < fuel)%nat ->
  exists d,
    parse_loop fuel w argv0 (Getopt.mk_state (pre ++ flag :: rest) "" no) c
    = ([Getopt_error d; Printf (opt_help w argv0)], inl (Exited 0)).
Proof.
  intros Hflag pre. induction pre as [|a pre IH]; intros Hpre fuel c no Hfuel.
  - destruct fuel as [|fuel]; [inversion Hfuel|].
    rewrite parse_loop_S. unfold Getopt.getopt_long. cbn [Getopt.nextchar Getopt.rest Getopt.nonopts List.app].
    destruct (next_element_unknown flag rest no Hflag) as (d & st & ->).
    exists d. reflexivity.
  - cbn [forallb] in Hpre. apply andb_true_iff in Hpre as [Ha Hpre].
    destruct fuel as [|fuel]; [inversion Hfuel|].
    cbn [List.length] in Hfuel.
    unfold harmless in Ha. rewrite !orb_true_iff in Ha.
    destruct Ha as [[[[Ha | Ha] | Ha] | Ha] | Ha].
    + destruct (IH Hpre (S fuel) c (no ++ [a])%list ltac:(lia)) as [d Hd].
      exists d. rewrite <- Hd, !parse_loop_S. unfold Getopt.getopt_long.
      cbn [Getopt.nextchar Getopt.rest Getopt.nonopts].
      rewrite <- app_comm_cons. now rewrite next_element_operand.
    + apply String.eqb_eq in Ha; subst a.
      rewrite parse_loop_S. cbn. apply IH; [assumption | lia].
    + apply String.eqb_eq in Ha; subst a.
      rewrite parse_loop_S. cbn. apply IH; [assumption | lia].
    + apply String.eqb_eq in Ha; subst a.
      rewrite parse_loop_S. cbn. apply IH; [assumption | lia].
    + apply String.eqb_eq in Ha; subst a.
      rewrite parse_loop_S. cbn. apply IH; [assumption | lia].
Qed.

(** C2, as the code has it: an unknown flag that stands first, or behind
    operands and the flags [-s], [-U], [--ssl], [--no-upnp] only, takes
    the way of [--help]: after the scanner's complaint the usage goes to
    the standard output and the process ends with exit code 0. *)
Theorem C2_unknown_flag_exits_0 :
  forall w argv0 pre flag rest,
    forallb harmless pre = true ->
    unknown_flag flag = true ->
    (exists d,
       main w (argv0 :: pre ++ flag :: rest)
       = ([Setlocale; Getopt_error d; Printf (opt_help w argv0)], Exited 0))
    /\ main w [argv0; "--help"]
       = ([Setlocale; Printf (opt_help w argv0)], Exited 0).
Proof.
  intros w argv0 pre flag rest Hpre Hflag. split; [|reflexivity].
  unfold main, parse_args.
  destruct (parse_loop_unknown w argv0 flag rest Hflag pre Hpre
              (S (Getopt.measure (Getopt.mk_state (pre ++ flag :: rest) "" [])))
              default_config []) as [d Hd].
  - pose proof (measure_bound (pre ++ flag :: rest) "" []) as Hm.
    rewrite length_app in Hm. lia.
  - exists d. now rewrite Hd.
Qed.

Lemma C2_unknown_flag_exits_0_witness :
  forallb harmless ["file"; "-s"] = true
  /\ unknown_flag "-x" = true
  /\ (exists d,
        main sample_world ("pshs" :: ["file"; "-s"] ++ "-x" :: ["other"])
        = ([Setlocale; Getopt_error d; Printf (opt_help sample_world "pshs")],
           Exited 0)).
Proof.
  split; [reflexivity | split; [reflexivity |]].
  apply (C2_unknown_flag_exits_0 sample_world "pshs" ["file"; "-s"] "-x" ["other"]);
    reflexivity.
Defined.

(** C2, as stated, fails: [pshs -x file] ends with exit code 0. *)
Lemma C2_counterexample :
  unknown_flag "-x" = true
  /\ main sample_world ["pshs"; "-x"; "file"]
     = ([Setlocale; Getopt_error (Getopt.Invalid_option "x");
         Printf (opt_help sample_world "pshs")], Exited 0)
  /\ snd (main sample_world ["pshs"; "-x"; "file"]) <> Exited 1.
Proof.
  split; [reflexivity | split; [reflexivity |]].
  cbn. discriminate.
Qed.

(** *** Reading a port number *)

Ltac read_digit :=
  cbn [read_digits];
  match goal with
  | |- context [digit_of ?c] =>
      let v := eval cbv in (digit_of c) in change (digit_of c) with v
  end;
  cbv iota beta;
  match goal with
  | |- context [?k <? 10] => change (k <? 10) with true
  end;
  cbv iota.

Lemma read_digits_acc d : forall (acc : positive) any,
  read_digits 10 (Zpos acc) any (NilEmpty.string_of_uint d)
  = (Zpos (Pos.of_uint_acc d acc),
     match d with Decimal.Nil => any | _ => true end, "").
Proof.
  induction d; intros acc any; cbn [NilEmpty.string_of_uint Pos.of_uint_acc];
    [reflexivity | ..];
    read_digit;
    match goal with
    | |- read_digits _ ?a _ _ = (Zpos (Pos.of_uint_acc _ ?b), _, _) =>
        replace a with (Zpos b) by lia
    end;
    rewrite IHd; now destruct d.
Qed.

Lemma read_digits_uint d : forall any,
  read_digits 10 0 any (NilEmpty.string_of_uint d)
  = (Z.of_N (Pos.of_uint d),
     match d with Decimal.Nil => any | _ => true end, "").
Proof.
  induction d; intros any; cbn [NilEmpty.string_of_uint Pos.of_uint];
    [reflexivity | ..];
    read_digit.
  1: { change (0 * 10 + 0) with 0. rewrite IHd. now destruct d. }
  all: match goal with
       | |- read_digits _ ?a _ _ = _ =>
           let v := eval cbv in a in change a with v
       end;
       rewrite read_digits_acc; now destruct d.
Qed.

Lemma to_uint_no_leading_zero p d : Pos.to_uint p <> Decimal.D0 d.
Proof.
  pose proof (DecimalPos.Unsigned.to_of (Pos.to_uint p)) as H.
  rewrite DecimalPos.Unsigned.of_to in H. cbn [N.to_uint] in H.
  destruct (Decimal.uint_eq_dec (Decimal.nzhead (Pos.to_uint p)) Decimal.Nil)
    as [E | E].
  - unfold Decimal.unorm in H. rewrite E in H.
    now apply DecimalPos.Unsigned.to_uint_nonzero in H.
  - rewrite DecimalFacts.unorm_nzhead in H by assumption.
    rewrite H. apply DecimalFacts.nzhead_nonzero.
Qed.

(** [strtol] reads the decimal numeral of a port number back. *)
Lemma strtol_dec n : 1 <= n <= 65535 -> strtol (dec n) = (n, "").
Proof.
  intros Hn. destruct n as [|p|p]; try lia.
  unfold dec. cbn [Z.to_int NilZero.string_of_int].
  pose proof (to_uint_no_leading_zero p) as Hz.
  pose proof (DecimalPos.Unsigned.of_to p) as Hp.
  pose proof (read_digits_uint (Pos.to_uint p) false) as Hr.
  rewrite Hp in Hr. cbn [Z.of_N] in Hr.
  unfold NilZero.string_of_uint.
  destruct (Pos.to_uint p) as [|d|d|d|d|d|d|d|d|d|d] eqn:E;
    [now apply DecimalPos.Unsigned.to_uint_nonnil in E
    | now elim (Hz d) | ..];
    cbn [NilEmpty.string_of_uint] in Hr |- *;
    unfold strtol; cbn [skip_space];
    cbn -[read_digits NilEmpty.string_of_uint clamp_long];
    rewrite Hr; unfold clamp_long, LONG_MIN, LONG_MAX;
    destruct (Z.ltb_spec (Zpos p) (- 2 ^ 63)); try lia;
    destruct (Z.ltb_spec (2 ^ 63 - 1) (Zpos p)); try lia; reflexivity.
Qed.

Lemma switch_port w argv0 a c :
  switch w argv0 "p" (Some a) c
  = let (v, tmp) := strtol a in
    let port := to_unsigned_int v in
    if nonempty tmp || (port =? 0) || (0xffff <=? port)
    then Return [Fprintf_stderr ("Invalid port number: " ++ a ++ nl)] 1
    else Continue (with_port c port).
Proof. reflexivity. Qed.

Lemma getopt_short_p a rest no :
  Getopt.getopt_long optstring opts (Getopt.mk_state ("-p" :: a :: rest) "" no)
  = Getopt.Opt "p" (Some a) (Getopt.mk_state rest "" no).
Proof. reflexivity. Qed.

(** C4, as the code has it: [-p a] is accepted, and [a] becomes the
    port, whenever [strtol] reads all of [a] as a number from 1 to 65534
    (the decimal numerals of these numbers are read so); and [main] ends
    with "Invalid port number" and exit code 1 when characters are left
    unread, when the number is 0 (a random port is asked for by giving no
    [-p] at all) and when it lies in 65536..2^32-1 or in -2^31..-1. *)
Theorem C4_port_argument :
  forall w argv0 a v tmp,
    strtol a = (v, tmp) ->
    (tmp = "" /\ 1 <= v <= 65534 ->
     forall fuel rest no c,
       parse_loop (S fuel) w argv0 (Getopt.mk_state ("-p" :: a :: rest) "" no) c
       = parse_loop fuel w argv0 (Getopt.mk_state rest "" no) (with_port c v))
    /\ (tmp <> "" \/ v = 0 \/ 65536 <= v < 2 ^ 32 \/ - 2 ^ 31 <= v < 0 ->
        forall rest,
          main w (argv0 :: "-p" :: a :: rest)
          = ([Setlocale; Fprintf_stderr ("Invalid port number: " ++ a ++ nl)],
             Exited 1))
    /\ (forall n, 1 <= n <= 65534 -> a = dec n -> v = n /\ tmp = "").
Proof.
  intros w argv0 a v tmp Hs. repeat split.
  - intros [-> Hv] fuel rest no c.
    rewrite parse_loop_S, getopt_short_p, switch_port, Hs.
    unfold to_unsigned_int. rewrite Z.mod_small by lia.
    cbn [nonempty orb].
    destruct (Z.eqb_spec v 0); [lia|].
    destruct (Z.leb_spec 0xffff v); [lia|]. reflexivity.
  - intros H rest. unfold main, parse_args.
    rewrite parse_loop_S, getopt_short_p, switch_port, Hs.
    cbv zeta.
    assert (E : nonempty tmp || (to_unsigned_int v =? 0)
                || (0xffff <=? to_unsigned_int v) = true).
    { unfold to_unsigned_int. destruct H as [H | [H | [H | H]]].
      - destruct tmp; [now elim H | reflexivity].
      - subst v. apply orb_true_iff. left. apply orb_true_iff. now right.
      - apply orb_true_iff. right. rewrite Z.mod_small by lia.
        apply Z.leb_le. lia.
      - apply orb_true_iff. right.
        replace v with (v + 2 ^ 32 - 1 * 2 ^ 32) by lia.
        rewrite Zminus_mod, Z_mod_mult, Z.sub_0_r, Z.mod_mod by lia.
        rewrite Z.mod_small by lia. apply Z.leb_le. lia. }
    rewrite E. reflexivity.
  - subst a. rewrite strtol_dec in Hs by lia. congruence.
  - subst a. rewrite strtol_dec in Hs by lia. congruence.
Qed.

(** On a machine with a 64 bit [long] a number beyond 2^32 comes back into
    the range by the conversion to [unsigned int]. *)
Example port_wraps_around :
  parse_args sample_world "pshs" ["-p"; "4294967297"; "file"]
  = ([], inr (with_port default_config 1, ["file"])).
Proof. reflexivity. Qed.

Lemma C4_port_argument_witness :
  strtol "8080" = (8080, "") /\ strtol "0" = (0, "")
  /\ parse_args sample_world "pshs" ["-p"; "8080"; "file"]
     = ([], inr (with_port default_config 8080, ["file"]))
  /\ main sample_world ["pshs"; "-p"; "0"; "file"]
     = ([Setlocale; Fprintf_stderr ("Invalid port number: 0" ++ nl)], Exited 1).
Proof.
  split; [reflexivity | split; [reflexivity | split]].
  - unfold parse_args.
    rewrite (proj1 (C4_port_argument sample_world "pshs" "8080" 8080 ""
                      eq_refl)) by (split; [reflexivity | lia]).
    reflexivity.
  - apply (proj1 (proj2 (C4_port_argument sample_world "pshs" "0" 0 ""
                           eq_refl))).
    right; left; reflexivity.
Defined.

(** C4, as stated, fails: [-p 0] does not ask for a random port but is
    an invalid port number, and so is [-p 65535]. *)
Lemma C4_counterexample :
  main sample_world ["pshs"; "-p"; "0"; "file"]
  = ([Setlocale; Fprintf_stderr ("Invalid port number: 0" ++ nl)], Exited 1)
  /\ main sample_world ["pshs"; "-p"; "65535"; "file"]
     = ([Setlocale; Fprintf_stderr ("Invalid port number: 65535" ++ nl)],
        Exited 1).
Proof. split; reflexivity. Qed.

(** *** The random port *)

Lemma random_port_eq r :
  0 <= r < RAND_RANGE -> random_port r = r mod 0x7bff + 0x400.
Proof.
  intros Hr. unfold random_port, to_unsigned_int.
  rewrite Z.rem_mod_nonneg by lia.
  pose proof (Z.mod_pos_bound r 0x7bff ltac:(lia)).
  apply Z.mod_small. lia.
Qed.

Lemma random_port_bounds r :
  0 <= r < RAND_RANGE -> 1024 <= random_port r <= 32766.
Proof.
  intros Hr. rewrite random_port_eq by assumption.
  pose proof (Z.mod_pos_bound r 0x7bff ltac:(lia)). lia.
Qed.

(** C5, as the code has it: with no port given the port is
    [random() % 31743 + 1024]; every port from 1024 to 32766 is a possible
    outcome, and the values of [random()] that give the port [p] are the
    [weight p] numbers [p - 1024 + 31743 * j], 67653 of them for the ports
    below 7236 and 67652 for the others. *)
Theorem C5_random_port_distribution :
  forall p,
    1024 <= p <= 32766 ->
    (forall w, choose_port w 0 = random_port (random w))
    /\ (exists r, 0 <= r < RAND_RANGE /\ random_port r = p)
    /\ (forall r, 0 <= r < RAND_RANGE ->
          (random_port r = p <->
           exists j, 0 <= j < weight p /\ r = p - 1024 + 0x7bff * j))
    /\ 67652 <= weight p <= 67653.
Proof.
  intros p Hp. split; [reflexivity | split; [| split]].
  - exists (p - 1024). unfold RAND_RANGE. split; [lia|].
    rewrite random_port_eq by (unfold RAND_RANGE; lia).
    rewrite Z.mod_small by lia. lia.
  - intros r Hr. rewrite random_port_eq by assumption.
    unfold RAND_RANGE in Hr. unfold weight. split.
    + intros E. exists (r / 0x7bff).
      pose proof (Z.div_mod r 0x7bff ltac:(lia)) as D.
      pose proof (Z.mod_pos_bound r 0x7bff ltac:(lia)) as B.
      destruct (Z.ltb_spec (p - 1024) 6212); lia.
    + intros (j & Hj & ->).
      replace (p - 1024 + 0x7bff * j) with (p - 1024 + j * 0x7bff) by lia.
      rewrite Z_mod_plus_full, Z.mod_small by lia. lia.
  - unfold weight. destruct (Z.ltb_spec (p - 1024) 6212); lia.
Qed.

Lemma C5_random_port_distribution_witness :
  1024 <= 32766 <= 32766
  /\ (exists r, 0 <= r < RAND_RANGE /\ random_port r = 32766)
  /\ 67652 <= weight 32766 <= 67653.
Proof.
  split; [lia|].
  destruct (C5_random_port_distribution 32766 ltac:(lia)) as (_ & H & _ & W).
  split; assumption.
Defined.

(** C5, as stated, fails: no value of [random()] gives the port 32767,
    and the weights are not equal: the value 31743 * 67652 of [random()]
    is a 67653rd one that gives the port 1024, while every value that
    gives the port 32766 is below it. *)
Lemma C5_counterexample :
  ~ (exists r, 0 <= r < RAND_RANGE /\ random_port r = 32767)
  /\ (0 <= 0x7bff * 67652 < RAND_RANGE
      /\ random_port (0x7bff * 67652) = 1024)
  /\ (forall r, 0 <= r < RAND_RANGE -> random_port r = 32766 ->
                r < 0x7bff * 67652).
Proof.
  split; [| split; [split; [unfold RAND_RANGE; lia | reflexivity] |]].
  - intros (r & Hr & E).
    pose proof (random_port_bounds r Hr). lia.
  - intros r Hr. rewrite random_port_eq by assumption.
    unfold RAND_RANGE in Hr. intros E.
    pose proof (Z.div_mod r 0x7bff ltac:(lia)) as D.
    pose proof (Z.mod_pos_bound r 0x7bff ltac:(lia)) as B.
    lia.
Qed.

(** C6: with no port given ([port == 0] after the parsing), for every
    value [random()] can return the port [main] binds to lies between
    1024 and 32767. *)
Theorem C6_random_port_in_range :
  forall w c files p,
    port c = 0 ->
    0 <= random w < RAND_RANGE ->
    bound_port (fst (serve w c files [])) = Some p ->
    p = choose_port w 0 /\ 1024 <= p <= 32767.
Proof.
  intros w c files p Hc Hr.
  pose proof (random_port_bounds (random w) Hr) as B.
  unfold serve. rewrite Hc.
  destruct (event_base_new_ok w); [| cbn; discriminate].
  destruct (evhttp_new_ok w); [| cbn; discriminate].
  cbn. intros [= <-]. split; [reflexivity | lia].
Qed.

Lemma C6_random_port_in_range_witness :
  port default_config = 0
  /\ 0 <= random sample_world < RAND_RANGE
  /\ bound_port (fst (serve sample_world default_config ["file"] []))
     = Some 9286
  /\ 1024 <= 9286 <= 32767.
Proof.
  split; [reflexivity | split; [unfold RAND_RANGE; cbn; lia | split]].
  - reflexivity.
  - apply (proj2 (C6_random_port_in_range sample_world default_config
                     ["file"] 9286 eq_refl
                     ltac:(unfold RAND_RANGE; cbn; lia) eq_refl)).
Defined.

(** *** Routes *)

(** C8: the index callback is registered for exactly "/" without a
    prefix and for "/P/" with the prefix P; a GET or HEAD request for that
    path goes to the index handler and one for any other path to the
    generic file handler; every other method is rejected. *)
Theorem C8_route_registration :
  forall c fr,
    index_uri None = "/"
    /\ (forall P, index_uri (Some P) = "/" ++ P ++ "/")
    /\ callbacks (evhttp_of (fst (register_routes c fr)))
       = [(index_uri (prefix c), handle_index)]
    /\ gencb (evhttp_of (fst (register_routes c fr))) = Some handle_file
    /\ forall m path,
         evhttp_handle_request (evhttp_of (fst (register_routes c fr))) m path
         = match m with
           | EVHTTP_REQ_GET | EVHTTP_REQ_HEAD =>
               if (index_uri (prefix c) =? path)%string
               then Handled_by handle_index
               else Handled_by handle_file
           | _ => Method_rejected
           end.
Proof.
  intros c fr. repeat split.
  intros m path. unfold evhttp_handle_request. cbn.
  destruct m; cbn; try reflexivity;
    destruct (index_uri (prefix c) =? path)%string; reflexivity.
Qed.

(** *** The announced URL *)

Lemma server_uri_spec w c a port files :
  server_uri c a port
    (match files with [f] => evhttp_encode_uri w f | _ => None end)
  = spec_uri w c a port files.
Proof.
  unfold server_uri, spec_uri.
  destruct (ssl c =? 0); destruct (prefix c) as [p|];
    destruct files as [|f [|g l]];
    try destruct (evhttp_encode_uri w f);
    repeat (cbn [append]; rewrite ?app_string_assoc, ?app_string_nil);
    reflexivity.
Qed.

(** C9: a URL is announced only when an external address is known, and
    it is then scheme://address:port/ followed by "prefix/" when a prefix
    is set and by the encoded name of the file when exactly one file is
    served, the scheme being "https" with TLS and "http" without. *)
Theorem C9_announced_url :
  forall w c port files addr fr,
    (forall u,
       announced (fst (announce w c port files addr fr)) = Some u ->
       exists a,
         addr = Some a /\ u = spec_uri w c a port files
         /\ In (Fprintf_stderr ("Server reachable at: " ++ u ++ nl))
               (fst (announce w c port files addr fr)))
    /\ (addr = None ->
        announced (fst (announce w c port files addr fr)) = None)
    /\ (forall a,
          addr = Some a ->
          (forall f, files = [f] -> evhttp_encode_uri w f <> None) ->
          announced (fst (announce w c port files addr fr))
          = Some (spec_uri w c a port files)).
Proof.
  intros w c port files addr fr.
  pose proof (fun a => server_uri_spec w c a port files) as S.
  destruct addr as [a|].
  2: { split; [intros u; cbn; discriminate |].
       split; [reflexivity | intros a [=]]. }
  specialize (S a).
  destruct files as [|f [|g l]];
    [| destruct (evhttp_encode_uri w f) as [e|] eqn:E |];
    rewrite ?E in S.
  all: split; [| split];
    [ intros u; cbn -[server_uri append]; rewrite ?E;
      cbn -[server_uri append]; rewrite ?S;
      try discriminate; intros [= <-]; exists a;
      repeat split; auto 10
    | discriminate
    | intros a' [= <-] H; cbn -[server_uri append]; rewrite ?E;
      cbn -[server_uri append]; rewrite ?S;
      try reflexivity; now elim (H _ eq_refl) ].
Qed.

Lemma C9_announced_url_witness :
  announced
    (fst (announce sample_world
            (mk_config (Some "pub") (Some "0.0.0.0") 8080 1 1) 8080
            ["a.txt"] (Some "198.51.100.7") []))
  = Some "https://198.51.100.7:8080/pub/a.txt".
Proof.
  apply (proj2 (proj2 (C9_announced_url sample_world
                         (mk_config (Some "pub") (Some "0.0.0.0") 8080 1 1)
                         8080 ["a.txt"] (Some "198.51.100.7") []))
           "198.51.100.7" eq_refl).
  intros f [= <-]. discriminate.
Defined.

(** *** Signal watchers *)

Lemma init_signal_handlers_run w fr :
  init_signal_handlers w fr
  = (flat_map (watcher_events w) sigs,
     inr (tt, L_sigevents (installed w) :: fr)).
Proof.
  unfold init_signal_handlers, installed, watcher_events, sigs.
  cbn [List.length seq for_each repeat flat_map map List.app].
  unfold install_handler, sigs. cbn [nth].
  destruct (evsignal_new_ok w SIGINT), (evsignal_new_ok w SIGTERM),
    (evsignal_new_ok w SIGHUP), (evsignal_new_ok w SIGUSR1),
    (evsignal_new_ok w SIGUSR2); reflexivity.
Qed.

(** C3, in the code: when the watcher of a signal cannot be installed the
    warning is written and the server goes on, but [event_add] is called
    all the same, on the null pointer: there are as many armings as
    signals, whatever was installed. *)
Theorem C3_failed_watcher_is_armed :
  forall w fr sig,
    In sig sigs ->
    evsignal_new_ok w sig = false ->
    In (Event_add None) (fst (init_signal_handlers w fr))
    /\ armings (fst (init_signal_handlers w fr)) = List.length sigs
    /\ snd (init_signal_handlers w fr)
       = inr (tt, L_sigevents (installed w) :: fr).
Proof.
  intros w fr sig Hin Hfail. rewrite init_signal_handlers_run.
  cbn [fst snd]. repeat split.
  - apply in_flat_map. exists sig. split; [assumption|].
    unfold watcher_events. rewrite Hfail. cbn. auto.
  - unfold watcher_events, sigs. cbn [flat_map].
    destruct (evsignal_new_ok w SIGINT), (evsignal_new_ok w SIGTERM),
      (evsignal_new_ok w SIGHUP), (evsignal_new_ok w SIGUSR1),
      (evsignal_new_ok w SIGUSR2); reflexivity.
Qed.

Lemma C3_failed_watcher_is_armed_witness :
  In SIGHUP sigs
  /\ evsignal_new_ok sighup_fails SIGHUP = false
  /\ In (Event_add None) (fst (init_signal_handlers sighup_fails serving_frame))
  /\ In (Event_add None) (fst (main sighup_fails ["pshs"; "file"])).
Proof.
  split; [cbn; auto | split; [reflexivity | split]].
  - apply (C3_failed_watcher_is_armed sighup_fails serving_frame SIGHUP);
      [cbn; auto | reflexivity].
  - cbn. auto 40.
Defined.

(** *** Release order *)

Lemma after_dispatch_app t1 t2 :
  ~ In Event_base_dispatch t1 ->
  after_dispatch (t1 ++ t2) = after_dispatch t2.
Proof.
  induction t1 as [|e t1 IH]; intros H; [reflexivity|].
  cbn [List.app]. destruct e; cbn [after_dispatch];
    try (apply IH; intros I; apply H; now right).
  elim H. now left.
Qed.

Lemma switch_quiet w argv0 opt optarg c out code :
  switch w argv0 opt optarg c = Return out code ->
  ~ In Event_base_dispatch out.
Proof.
  unfold switch.
  bits opt; try discriminate;
    try (intros [= <- _]; cbn; intuition discriminate).
  destruct optarg as [a|]; [|discriminate].
  destruct (strtol a) as [v tmp].
  destruct (nonempty tmp || _ || _); [|discriminate].
  intros [= <- _]; cbn; intuition discriminate.
Qed.

Lemma parse_loop_quiet w argv0 fuel : forall st c out r,
  parse_loop fuel w argv0 st c = (out, r) ->
  ~ In Event_base_dispatch out.
Proof.
  induction fuel as [|fuel IH]; intros st c out r.
  - intros [= <- _]. auto.
  - rewrite parse_loop_S.
    destruct (Getopt.getopt_long optstring opts st) as [o a st' | d st' | ops].
    + destruct (switch w argv0 o a c) as [c' | out' code |] eqn:E.
      * apply IH.
      * intros [= <- _]. eapply switch_quiet, E.
      * intros [= <- _]. auto.
    + cbn. intros [= <- _]. cbn. intuition discriminate.
    + intros [= <- _]. auto.
Qed.

Lemma parse_args_quiet w argv0 args out r :
  parse_args w argv0 args = (out, r) -> ~ In Event_base_dispatch out.
Proof.
  unfold parse_args.
  destruct (parse_loop _ w argv0 _ default_config) as [o [s | [c ops]]] eqn:E;
    apply parse_loop_quiet in E.
  - now intros [= <- _].
  - destruct ops as [|f ops]; intros [= <- _]; [|assumption].
    intros I. apply in_app_or in I as [I | I]; [now apply E|].
    cbn in I. intuition discriminate.
Qed.

Lemma announce_run w c port files addr fr :
  ~ In Event_base_dispatch (fst (announce w c port files addr fr))
  /\ (snd (announce w c port files addr fr) = inr (tt, fr)
      \/ snd (announce w c port files addr fr) = inl Threw_bad_alloc).
Proof.
  destruct addr as [a|]; [| cbn; intuition discriminate].
  destruct files as [|f [|g l]];
    [| destruct (evhttp_encode_uri w f) as [e|] eqn:E |];
    cbn -[server_uri append]; rewrite ?E; cbn -[server_uri append];
    intuition discriminate.
Qed.

Lemma bind_run {A B} (m : M A) (k : A -> M B) fr :
  bind m k fr
  = match snd (m fr) with
    | inl s => (fst (m fr), inl s)
    | inr (a, fr') => ((fst (m fr) ++ fst (k a fr'))%list, snd (k a fr'))
    end.
Proof. reflexivity. Qed.

Lemma serve_after_dispatch w c files :
  In Event_base_dispatch (fst (serve w c files [])) ->
  after_dispatch (fst (serve w c files []))
  = (flat_map free_sigevent (List.rev (installed w))
     ++ [SSLMod_dtor; ExternalIP_dtor; ContentType_dtor;
         Evhttp_free; Event_base_free])%list
  /\ snd (serve w c files []) = inl (Exited 0).
Proof.
  unfold serve.
  destruct (event_base_new_ok w); [| cbn; intuition discriminate].
  destruct (evhttp_new_ok w); [| cbn; intuition discriminate].
  destruct (evhttp_bind_socket_ok w (bindip c) (choose_port w (port c)));
    [| cbn -[append]; intuition discriminate].
  cbn -[append announce init_signal_handlers].
  destruct (announce_run w c (choose_port w (port c)) files
              (external_ip w (choose_port w (port c)) (bindip c) (upnp c))
              serving_frame) as [Q [R | R]];
    unfold serving_frame in Q, R; rewrite bind_run, R.
  - rewrite bind_run, init_signal_handlers_run.
    cbn -[append announce installed].
    intros _. rewrite after_dispatch_app by assumption.
    unfold watcher_events, installed, sigs.
    cbn -[append announce].
    destruct (evsignal_new_ok w SIGINT), (evsignal_new_ok w SIGTERM),
      (evsignal_new_ok w SIGHUP), (evsignal_new_ok w SIGUSR1),
      (evsignal_new_ok w SIGUSR2), (signal_ok w); split; reflexivity.
  - cbn -[append announce].
    intros [I|[I|[I|[I|[I|[I|[I|[I|[I|[I|[I|I]]]]]]]]]]];
      try discriminate I.
    now elim Q.
Qed.

(** C7, as the code has it: after the dispatch has returned the locals
    of [main] are destroyed in the reverse order of their declaration:
    the signal watchers (the last installed first), then the TLS module,
    the external address and the content types, then the HTTP listener,
    and the event loop last; the process ends with exit code 0. *)
Theorem C7_release_order :
  forall w argv,
    In Event_base_dispatch (fst (main w argv)) ->
    after_dispatch (fst (main w argv))
    = (flat_map free_sigevent (List.rev (installed w))
       ++ [SSLMod_dtor; ExternalIP_dtor; ContentType_dtor;
           Evhttp_free; Event_base_free])%list
    /\ releases_in_order [Watcher; Tls_context; Listener; Event_loop]
         (after_dispatch (fst (main w argv))) = true
    /\ snd (main w argv) = Exited 0.
Proof.
  intros w argv H.
  assert (G : after_dispatch (fst (main w argv))
              = (flat_map free_sigevent (List.rev (installed w))
                 ++ [SSLMod_dtor; ExternalIP_dtor; ContentType_dtor;
                     Evhttp_free; Event_base_free])%list
              /\ snd (main w argv) = Exited 0).
  { unfold main in *. destruct argv as [|argv0 args]; [elim H|].
    destruct (parse_args w argv0 args) as [out [s | [c files]]] eqn:P;
      apply parse_args_quiet in P.
    - cbn in H. destruct H as [H | H]; [discriminate H | now elim P].
    - destruct (serve_after_dispatch w c files) as [A B].
      + destruct (serve w c files []) as [t [s | x]]; cbn [fst] in *;
          (destruct H as [H | H]; [discriminate H|]);
          apply in_app_or in H as [H | H]; [now elim P | assumption
                                           | now elim P | assumption].
      + destruct (serve w c files []) as [t [s | x]]; cbn [fst snd] in *;
          [| discriminate B].
        cbn [after_dispatch]. rewrite after_dispatch_app by assumption.
        split; [assumption | congruence]. }
  destruct G as [G1 G2]. repeat split; try assumption.
  rewrite G1. unfold installed, sigs. cbn [map List.rev List.app].
  destruct (evsignal_new_ok w SIGINT), (evsignal_new_ok w SIGTERM),
    (evsignal_new_ok w SIGHUP), (evsignal_new_ok w SIGUSR1),
    (evsignal_new_ok w SIGUSR2); reflexivity.
Qed.

Lemma C7_release_order_witness :
  In Event_base_dispatch (fst (main sample_world ["pshs"; "-s"; "file"]))
  /\ after_dispatch (fst (main sample_world ["pshs"; "-s"; "file"]))
     = [Event_free SIGUSR2; Event_free SIGUSR1; Event_free SIGHUP;
        Event_free SIGTERM; Event_free SIGINT;
        SSLMod_dtor; ExternalIP_dtor; ContentType_dtor;
        Evhttp_free; Event_base_free].
Proof.
  split; [cbn; auto 40|].
  apply (proj1 (C7_release_order sample_world ["pshs"; "-s"; "file"]
                  ltac:(cbn; auto 40))).
Defined.

(** C7, as stated, fails: the TLS module is destroyed before the HTTP
    listener is freed, not after it. *)
Lemma C7_counterexample :
  releases (after_dispatch (fst (main sample_world ["pshs"; "-s"; "file"])))
  = [Watcher; Watcher; Watcher; Watcher; Watcher;
     Tls_context; Listener; Event_loop]
  /\ releases_in_order [Watcher; Listener; Tls_context; Event_loop]
       (after_dispatch (fst (main sample_world ["pshs"; "-s"; "file"])))
     = false.
Proof. split; reflexivity. Qed.

(** *** The argument loop always comes to an end *)

Lemma short_option_measure os c more args no st' :
  next_state (Getopt.short_option os c more (Getopt.mk_state args "" no))
  = Some st' ->
  (Getopt.measure st'
   <= String.length more + Getopt.measure (Getopt.mk_state args "" no))%nat.
Proof.
  unfold Getopt.short_option, Getopt.measure. cbn [Getopt.rest Getopt.nonopts Getopt.nextchar].
  destruct (if (c =? ":")%char then None else Getopt.optstring_lookup c os)
    as [[|]|].
  - intros [= <-]. cbn. lia.
  - destruct more as [|x more].
    + destruct args as [|a args]; intros [= <-]; cbn; lia.
    + intros [= <-]. cbn. lia.
  - intros [= <-]. cbn. lia.
Qed.

Lemma long_option_measure lo body args no st' :
  next_state (Getopt.long_option lo body (Getopt.mk_state args "" no))
  = Some st' ->
  (Getopt.measure st' <= Getopt.measure (Getopt.mk_state args "" no))%nat.
Proof.
  unfold Getopt.long_option.
  destruct (Getopt.split_eq body) as [nm eqarg].
  destruct (Getopt.lookup_long nm lo) as [o| |]; try (intros [= <-]; lia).
  destruct (Getopt.has_arg o), eqarg; try (intros [= <-]; lia).
  cbn [Getopt.rest]. destruct args as [|a args]; intros [= <-];
    unfold Getopt.measure; cbn; lia.
Qed.

Lemma next_element_measure os lo args : forall no st',
  next_state (Getopt.next_element os lo args no) = Some st' ->
  (Getopt.measure st' < Getopt.measure (Getopt.mk_state args "" no))%nat.
Proof.
  induction args as [|a args IH]; intros no st'; [discriminate|].
  assert (Skip : next_state (Getopt.next_element os lo args (no ++ [a])) = Some st' ->
                 (Getopt.measure st' < Getopt.measure (Getopt.mk_state (a :: args) "" no))%nat).
  { intros H. apply IH in H. unfold Getopt.measure in *. cbn in *. lia. }
  destruct a as [|c [|d body]]; [exact Skip | |].
  - bits c; exact Skip.
  - bits c; try exact Skip.
    assert (Short : next_state (Getopt.short_option os d body (Getopt.mk_state args "" no))
                    = Some st' ->
                    (Getopt.measure st'
                     < Getopt.measure (Getopt.mk_state (String "-" (String d body) :: args) "" no))%nat).
    { intros H. apply short_option_measure in H.
      unfold Getopt.measure in *. cbn in *. lia. }
    bits d; try exact Short.
    destruct body as [|e body]; [discriminate|].
    cbn [Getopt.next_element]. intros H. apply long_option_measure in H.
    unfold Getopt.measure in *. cbn in *. lia.
Qed.

Lemma getopt_long_measure st st' :
  next_state (Getopt.getopt_long optstring opts st) = Some st' ->
  (Getopt.measure st' < Getopt.measure st)%nat.
Proof.
  destruct st as [args nc no]. unfold Getopt.getopt_long.
  cbn [Getopt.nextchar Getopt.rest Getopt.nonopts].
  destruct nc as [|c more]; [apply next_element_measure|].
  unfold Getopt.short_option, Getopt.measure.
  cbn [Getopt.rest Getopt.nonopts Getopt.nextchar].
  destruct (if (c =? ":")%char then None
            else Getopt.optstring_lookup c optstring) as [[|]|].
  - intros [= <-]. cbn. lia.
  - destruct more as [|x more].
    + destruct args as [|a args]; intros [= <-]; cbn; lia.
    + intros [= <-]. cbn. lia.
  - intros [= <-]. cbn. lia.
Qed.




(** ** Further properties of [main] *)

Import Runs.

(** *** The signal handler *)

(** X1: for each of the five signals [main] installs a watcher for, the
    handler reports the signal by its own name and then asks the loop to
    stop; the names of different signals differ; a number that belongs to
    none of the five is reported as "unknown". *)
Theorem term_handler_names_the_signals :
  (forall sig,
     In sig sigs ->
     Handler.term_handler (signo sig)
     = [Handler.Stderr ("Terminating due to signal " ++ symbol sig ++ "." ++ nl);
        Handler.Event_base_loopbreak])
  /\ (forall s1 s2,
        In s1 sigs -> In s2 sigs ->
        Handler.signal_name (signo s1) = Handler.signal_name (signo s2) ->
        s1 = s2)
  /\ (forall fd,
        (forall sig, In sig sigs -> fd <> signo sig) ->
        Handler.term_handler fd
        = [Handler.Stderr ("Terminating due to signal unknown." ++ nl);
           Handler.Event_base_loopbreak]).
Proof.
  split; [| split].
  - intros sig H. cbn in H.
    destruct H as [<- | [<- | [<- | [<- | [<- | []]]]]]; reflexivity.
  - intros s1 s2 H1 H2. cbn in H1, H2.
    destruct H1 as [<- | [<- | [<- | [<- | [<- | []]]]]];
      destruct H2 as [<- | [<- | [<- | [<- | [<- | []]]]]];
      cbn; intros E; try reflexivity; discriminate E.
  - intros fd H. unfold Handler.term_handler, Handler.signal_name.
    pose proof (H SIGINT ltac:(cbn; auto)).
    pose proof (H SIGTERM ltac:(cbn; auto)).
    pose proof (H SIGHUP ltac:(cbn; auto)).
    pose proof (H SIGUSR1 ltac:(cbn; auto)).
    pose proof (H SIGUSR2 ltac:(cbn; auto 10)).
    repeat match goal with
           | |- context [fd =? ?n] => destruct (Z.eqb_spec fd n); [congruence|]
           end.
    reflexivity.
Qed.

Lemma term_handler_names_the_signals_witness :
  In SIGUSR1 sigs
  /\ Handler.term_handler (signo SIGUSR1)
     = [Handler.Stderr ("Terminating due to signal SIGUSR1." ++ nl);
        Handler.Event_base_loopbreak]
  /\ Handler.term_handler (signo SIGPIPE)
     = [Handler.Stderr ("Terminating due to signal unknown." ++ nl);
        Handler.Event_base_loopbreak].
Proof.
  split; [cbn; auto | split].
  - apply (proj1 term_handler_names_the_signals SIGUSR1). cbn; auto.
  - apply (proj2 (proj2 term_handler_names_the_signals) (signo SIGPIPE)).
    intros sig H. cbn in H.
    destruct H as [<- | [<- | [<- | [<- | [<- | []]]]]]; discriminate.
Defined.

(** *** The argument loop, whatever the fuel *)

Lemma measure_size args no :
  Getopt.measure (Getopt.mk_state args "" no) = size args.
Proof. reflexivity. Qed.

Lemma size_app a b : size (a ++ b) = (size a + size b)%nat.
Proof.
  induction a as [|x a IH]; [reflexivity|].
  cbn [List.app size fold_right] in *. fold (size (a ++ b)). fold (size a).
  rewrite IH. lia.
Qed.

Lemma size_cons a args : size (a :: args) = (S (String.length a) + size args)%nat.
Proof. reflexivity. Qed.

Lemma switch_question w argv0 c :
  switch w argv0 "?" None c = Return [Printf (opt_help w argv0)] 0.
Proof. reflexivity. Qed.

Lemma parse_loop_enough w argv0 f1 : forall f2 st c,
  (Getopt.measure st < f1)%nat -> (Getopt.measure st < f2)%nat ->
  parse_loop f1 w argv0 st c = parse_loop f2 w argv0 st c.
Proof.
  induction f1 as [|f1 IH]; intros f2 st c H1 H2; [lia|].
  destruct f2 as [|f2]; [lia|].
  rewrite !parse_loop_S.
  pose proof (getopt_long_measure st) as D.
  destruct (Getopt.getopt_long optstring opts st) as [o a st' | d st' | ops];
    cbn [next_state] in D.
  - specialize (D st' eq_refl).
    destruct (switch w argv0 o a c); [apply IH; lia | reflexivity..].
  - rewrite switch_question. reflexivity.
  - reflexivity.
Qed.

Lemma harmless_cases a :
  harmless a = true ->
  operand a = true \/ a = "-s" \/ a = "-U" \/ a = "--ssl" \/ a = "--no-upnp".
Proof.
  unfold harmless. rewrite !orb_true_iff, !String.eqb_eq. tauto.
Qed.

(** Operands and switches in front of the rest of the command line: the
    operands are passed over, the switches set their variable. *)
Lemma parse_loop_harmless w argv0 tail : forall pre,
  forallb harmless pre = true ->
  forall f c no,
    (size (pre ++ tail) < f)%nat ->
    parse_loop f w argv0 (Getopt.mk_state (pre ++ tail) "" no) c
    = parse_loop f w argv0
        (Getopt.mk_state tail "" (no ++ filter operand pre))
        (fold_left step_switch pre c).
Proof.
  induction pre as [|a pre IH]; intros Hpre f c no Hf.
  - cbn. now rewrite app_nil_r.
  - cbn [forallb] in Hpre. apply andb_true_iff in Hpre as [Ha Hpre].
    destruct f as [|f]; [lia|].
    rewrite <- app_comm_cons, size_cons in Hf.
    assert (Hsw : forall c', a = "-s" \/ a = "-U" \/ a = "--ssl" \/ a = "--no-upnp" ->
              Getopt.getopt_long optstring opts
                (Getopt.mk_state (a :: pre ++ tail) "" no)
              = Getopt.Opt (if asks_ssl a then "s" else "U")%char None
                  (Getopt.mk_state (pre ++ tail) "" no)
              /\ switch w argv0 (if asks_ssl a then "s" else "U")%char None c'
                 = Continue (step_switch c' a)
              /\ operand a = false).
    { intros c' [-> | [-> | [-> | ->]]]; repeat split. }
    destruct (harmless_cases a Ha) as [Hop | Hs].
    + assert (E : step_switch c a = c).
      { unfold step_switch, asks_ssl, asks_no_upnp.
        destruct (String.eqb_spec a "-s") as [-> | _]; [discriminate Hop|].
        destruct (String.eqb_spec a "--ssl") as [-> | _]; [discriminate Hop|].
        destruct (String.eqb_spec a "-U") as [-> | _]; [discriminate Hop|].
        destruct (String.eqb_spec a "--no-upnp") as [-> | _];
          [discriminate Hop | reflexivity]. }
      cbn [fold_left filter]. rewrite Hop, E.
      replace (no ++ a :: filter operand pre)%list
        with ((no ++ [a]) ++ filter operand pre)%list
        by (rewrite <- app_assoc; reflexivity).
      rewrite <- (IH Hpre (S f) c (no ++ [a])%list) by lia.
      rewrite <- app_comm_cons, !parse_loop_S. unfold Getopt.getopt_long.
      cbn [Getopt.nextchar Getopt.rest Getopt.nonopts].
      now rewrite next_element_operand.
    + destruct (Hsw c Hs) as (G & S & Hop).
      rewrite <- app_comm_cons, parse_loop_S, G, S.
      cbn [fold_left filter]. rewrite Hop.
      rewrite IH by (assumption || lia).
      apply parse_loop_enough; rewrite measure_size;
        rewrite size_app in Hf; lia.
Qed.

Lemma fold_switches pre : forall c,
  fold_left step_switch pre c
  = mk_config (prefix c) (bindip c) (port c)
      (if existsb asks_ssl pre then 1 else ssl c)
      (if existsb asks_no_upnp pre then 0 else upnp c).
Proof.
  induction pre as [|a pre IH]; intros c; [now destruct c|].
  cbn [fold_left existsb]. rewrite IH. unfold step_switch.
  destruct (asks_ssl a) eqn:Es; cbn.
  - assert (Eu : asks_no_upnp a = false).
    { unfold asks_ssl in Es. rewrite orb_true_iff, !String.eqb_eq in Es.
      destruct Es as [-> | ->]; reflexivity. }
    rewrite Eu. cbn. now destruct (existsb asks_ssl pre).
  - destruct (asks_no_upnp a); cbn; [|now destruct c].
    now destruct (existsb asks_no_upnp pre).
Qed.

(** *** Operands, switches and the end of the options *)

Lemma parse_loop_end w argv0 f c no :
  parse_loop (S f) w argv0 (Getopt.mk_state [] "" no) c = ([], inr (c, no)).
Proof. reflexivity. Qed.

Lemma parse_loop_dashes w argv0 f c no rest :
  parse_loop (S f) w argv0 (Getopt.mk_state ("--" :: rest) "" no) c
  = ([], inr (c, (no ++ rest)%list)).
Proof. reflexivity. Qed.

Lemma switches_fold pre : fold_left step_switch pre default_config = switches pre.
Proof. rewrite fold_switches. reflexivity. Qed.

(** X2: on a command line of operands and of the switches [-s], [--ssl],
    [-U], [--no-upnp], in any order, the files served are the operands in
    their order, each normalized, TLS is on exactly when [-s] or [--ssl]
    occurs, and UPnP is off exactly when [-U] or [--no-upnp] occurs;
    without any operand the usage goes to the standard error stream and
    the exit code is 1. *)
Theorem operands_and_switches_mix :
  forall w argv0 args,
    forallb harmless args = true ->
    parse_args w argv0 args
    = parsed w argv0 (switches args) (filter operand args).
Proof.
  intros w argv0 args H. unfold parse_args.
  pose proof (parse_loop_harmless w argv0 [] args H
                (S (Getopt.measure (Getopt.mk_state args "" [])))
                default_config []) as P.
  rewrite app_nil_r in P. rewrite P by (rewrite measure_size; lia).
  rewrite parse_loop_end, switches_fold. cbn [List.app].
  unfold parsed. now destruct (filter operand args).
Qed.

Lemma operands_and_switches_mix_witness :
  forallb harmless ["./a"; "--ssl"; "b"; "-U"] = true
  /\ parse_args sample_world "pshs" ["./a"; "--ssl"; "b"; "-U"]
     = ([], inr (mk_config None (Some "0.0.0.0") 0 1 0, ["a"; "b"]))
  /\ main sample_world ["pshs"; "-s"]
     = ([Setlocale; Fprintf_stderr (opt_help sample_world "pshs")], Exited 1).
Proof.
  split; [reflexivity | split].
  - apply (operands_and_switches_mix sample_world "pshs"
             ["./a"; "--ssl"; "b"; "-U"] eq_refl).
  - unfold main.
    now rewrite (operands_and_switches_mix sample_world "pshs" ["-s"] eq_refl).
Defined.

(** X3: [--] ends the options: whatever follows it is a file operand,
    also when it begins with a dash, and is served after the operands
    that stood before it. *)
Theorem double_dash_ends_options :
  forall w argv0 pre rest,
    forallb harmless pre = true ->
    parse_args w argv0 (pre ++ "--" :: rest)
    = parsed w argv0 (switches pre) (filter operand pre ++ rest).
Proof.
  intros w argv0 pre rest H. unfold parse_args.
  rewrite (parse_loop_harmless w argv0 ("--" :: rest) pre H)
    by (rewrite measure_size; lia).
  rewrite parse_loop_dashes, switches_fold. cbn [List.app].
  unfold parsed. now destruct (filter operand pre ++ rest)%list.
Qed.

Lemma double_dash_ends_options_witness :
  forallb harmless ["a"; "-s"] = true
  /\ parse_args sample_world "pshs" (["a"; "-s"] ++ "--" :: ["-x"; "./-p"; "--help"])
     = ([], inr (mk_config None (Some "0.0.0.0") 0 1 1,
                 ["a"; "-x"; "-p"; "--help"])).
Proof.
  split; [reflexivity|].
  apply (double_dash_ends_options sample_world "pshs" ["a"; "-s"]
           ["-x"; "./-p"; "--help"] eq_refl).
Defined.

(** X4: [-h] and [--help] print the usage on the standard output, [-V]
    and [--version] print the package string, and [main] ends with exit
    code 0 at once: no file operand is needed, and nothing of what follows
    on the command line is looked at. *)
Theorem help_and_version_end_main :
  forall w argv0 pre flag rest,
    forallb harmless pre = true ->
    (In flag ["-h"; "--help"] ->
     main w (argv0 :: pre ++ flag :: rest)
     = ([Setlocale; Printf (opt_help w argv0)], Exited 0))
    /\ (In flag ["-V"; "--version"] ->
        main w (argv0 :: pre ++ flag :: rest)
        = ([Setlocale; Printf (PACKAGE_STRING w ++ nl)], Exited 0)).
Proof.
  intros w argv0 pre flag rest H.
  assert (P : forall f, (size (pre ++ flag :: rest) < f)%nat ->
            parse_loop f w argv0 (Getopt.mk_state (pre ++ flag :: rest) "" [])
              default_config
            = parse_loop f w argv0
                (Getopt.mk_state (flag :: rest) "" ([] ++ filter operand pre))
                (fold_left step_switch pre default_config)).
  { intros f Hf. now apply parse_loop_harmless. }
  split; intros Hflag; unfold main, parse_args;
    rewrite P by (rewrite measure_size; lia);
    cbn in Hflag; destruct Hflag as [<- | [<- | []]]; reflexivity.
Qed.

Lemma help_and_version_end_main_witness :
  forallb harmless ["file"; "-U"] = true
  /\ In "--help" ["-h"; "--help"]
  /\ main sample_world ("pshs" :: ["file"; "-U"] ++ "--help" :: ["-p"; "zero"])
     = ([Setlocale; Printf (opt_help sample_world "pshs")], Exited 0)
  /\ main sample_world ("pshs" :: [] ++ "-V" :: [])
     = ([Setlocale; Printf ("pshs 0.3.4" ++ nl)], Exited 0).
Proof.
  split; [reflexivity | split; [cbn; auto | split]].
  - apply (proj1 (help_and_version_end_main sample_world "pshs"
                    ["file"; "-U"] "--help" ["-p"; "zero"] eq_refl)).
    cbn; auto.
  - apply (proj2 (help_and_version_end_main sample_world "pshs"
                    [] "-V" [] eq_refl)).
    cbn; auto.
Defined.

(** X5: an option with an argument may be written in any of its
    spellings: [--port=N], [--port N], [-pN] and [-p N] are read alike, so
    are [--bind=IP], [--bind IP], [-bIP] and [-b IP], and [-PX] and
    [-P X]; in particular the check of the port is the same for all. *)
Theorem option_spellings_agree :
  forall w argv0 f a rest no c,
    let run args := parse_loop (S f) w argv0 (Getopt.mk_state args "" no) c in
    run (("--port=" ++ a) :: rest) = run ("-p" :: a :: rest)
    /\ run ("--port" :: a :: rest) = run ("-p" :: a :: rest)
    /\ run (("--bind=" ++ a) :: rest) = run ("-b" :: a :: rest)
    /\ run ("--bind" :: a :: rest) = run ("-b" :: a :: rest)
    /\ (a <> "" ->
        run (("-p" ++ a) :: rest) = run ("-p" :: a :: rest)
        /\ run (("-b" ++ a) :: rest) = run ("-b" :: a :: rest)
        /\ run (("-P" ++ a) :: rest) = run ("-P" :: a :: rest)).
Proof.
  intros w argv0 f a rest no c run. unfold run.
  repeat split; try reflexivity;
    destruct a as [|x a]; try congruence; reflexivity.
Qed.

Lemma option_spellings_agree_witness :
  "8080" <> ""
  /\ parse_loop 9 sample_world "pshs"
       (Getopt.mk_state ["-p8080"; "f"] "" []) default_config
     = ([], inr (with_port default_config 8080, ["f"])).
Proof.
  split; [discriminate|].
  pose proof (option_spellings_agree sample_world "pshs" 8 "8080" ["f"] []
                default_config) as H.
  cbv zeta in H.
  destruct H as (_ & _ & _ & _ & H).
  destruct (H ltac:(discriminate)) as [H1 _].
  exact (eq_trans H1 eq_refl).
Defined.

(** *** The run of the server, case by case *)

Lemma announce_closed w c p files addr fr :
  announce w c p files addr fr
  = (announcement w c p files addr,
     if encoding_fails w files addr then inl Threw_bad_alloc
     else inr (tt, fr)).
Proof.
  unfold announcement, ready_line, bound_line, reachable_line, encoding_fails.
  destruct addr as [a|]; [|reflexivity].
  pose proof (server_uri_spec w c a p files) as S.
  destruct files as [|f [|g l]];
    [| destruct (evhttp_encode_uri w f) as [e|] eqn:E |];
    cbn -[server_uri append spec_uri]; rewrite ?E;
    cbn -[server_uri append spec_uri]; rewrite ?S; reflexivity.
Qed.

Lemma serve_run w c files :
  (fst (serve w c files []),
   match snd (serve w c files []) with
   | inl s => s
   | inr _ => Undefined_behaviour
   end)
  = serve_closed w c files.
Proof.
  unfold serve, serve_closed.
  destruct (event_base_new_ok w); [| reflexivity].
  destruct (evhttp_new_ok w); [| reflexivity].
  destruct (evhttp_bind_socket_ok w (bindip c) (choose_port w (port c)));
    [| reflexivity].
  cbn -[append announce init_signal_handlers announcement running_events
        encoding_fails].
  rewrite bind_run, announce_closed. cbn [fst snd].
  destruct (encoding_fails w files _).
  - reflexivity.
  - rewrite bind_run, init_signal_handlers_run.
    unfold startup_events, running_events.
    destruct (signal_ok w); reflexivity.
Qed.

Lemma main_run w argv0 args :
  main w (argv0 :: args)
  = match parse_args w argv0 args with
    | (out, inl s) => (Setlocale :: out, s)
    | (out, inr (c, files)) =>
        ((Setlocale :: out ++ fst (serve_closed w c files))%list,
         snd (serve_closed w c files))
    end.
Proof.
  unfold main. destruct (parse_args w argv0 args) as [out [s | [c files]]];
    [reflexivity|].
  rewrite <- serve_run. cbn [fst snd].
  destruct (serve w c files []) as [t [s | x]]; reflexivity.
Qed.

Lemma serve_trace w c files :
  fst (serve w c files []) = fst (serve_closed w c files).
Proof. now rewrite <- serve_run. Qed.


Ltac world_cases w :=
  destruct (evsignal_new_ok w SIGINT), (evsignal_new_ok w SIGTERM),
    (evsignal_new_ok w SIGHUP), (evsignal_new_ok w SIGUSR1),
    (evsignal_new_ok w SIGUSR2), (signal_ok w).

Ltac announcement_cases w files :=
  unfold announcement, encoding_fails;
  match goal with
  | |- context [external_ip w ?p ?ip ?u] =>
      destruct (external_ip w p ip u) as [?a|]
  end;
  [destruct files as [|?f [|?g ?l]];
   [| match goal with
      | |- context [evhttp_encode_uri w ?f] =>
          destruct (evhttp_encode_uri w f) as [?e|]
      end |] |].

(** *** When the server runs *)



(** *** What the argument loop hands over *)

Lemma lookup_long_in nm lo o :
  Getopt.lookup_long nm lo = Getopt.Found o -> In o lo.
Proof.
  unfold Getopt.lookup_long.
  destruct (find _ lo) as [o'|] eqn:F.
  - intros [= <-]. now apply find_some in F.
  - destruct (filter _ lo) as [|o' others] eqn:E; [discriminate|].
    destruct (forallb _ others); [|discriminate].
    intros [= <-].
    assert (I : In o' (filter (fun o => String.prefix nm (Getopt.name o)) lo))
      by (rewrite E; now left).
    now apply filter_In in I.
Qed.

Lemma short_option_optarg c more st c' st' :
  Getopt.short_option optstring c more st = Getopt.Opt c' None st' ->
  In c' ["h"; "V"; "s"; "U"]%char.
Proof.
  unfold Getopt.short_option.
  bits c; cbn; try discriminate;
    try (intros [= <- _]; auto 10);
    destruct more; try discriminate;
    destruct (Getopt.rest st); discriminate.
Qed.

Lemma long_option_optarg body st c' st' :
  Getopt.long_option opts body st = Getopt.Opt c' None st' ->
  In c' ["h"; "V"; "s"; "U"]%char.
Proof.
  unfold Getopt.long_option.
  destruct (Getopt.split_eq body) as [nm eqarg].
  destruct (Getopt.lookup_long nm opts) as [o| |] eqn:L; try discriminate.
  apply lookup_long_in in L. cbn in L.
  destruct L as [<- | [<- | [<- | [<- | [<- | [<- | []]]]]]]; cbn;
    destruct eqarg; try discriminate;
    try (intros [= <- _]; auto 10);
    destruct (Getopt.rest st); discriminate.
Qed.

Lemma next_element_optarg args : forall no c' st',
  Getopt.next_element optstring opts args no = Getopt.Opt c' None st' ->
  In c' ["h"; "V"; "s"; "U"]%char.
Proof.
  induction args as [|a args IH]; intros no c' st'; [discriminate|].
  destruct a as [|c [|d body]]; [apply IH | |].
  - bits c; apply IH.
  - bits c; try apply IH.
    bits d; try apply short_option_optarg.
    destruct body as [|e body]; [discriminate|].
    apply long_option_optarg.
Qed.

Lemma getopt_long_optarg st c' st' :
  Getopt.getopt_long optstring opts st = Getopt.Opt c' None st' ->
  In c' ["h"; "V"; "s"; "U"]%char.
Proof.
  unfold Getopt.getopt_long. destruct (Getopt.nextchar st).
  - apply next_element_optarg.
  - apply short_option_optarg.
Qed.

Lemma switch_return w argv0 opt optarg c out code :
  switch w argv0 opt optarg c = Return out code ->
  forallb is_output out = true /\ (code = 0 \/ code = 1).
Proof.
  unfold switch.
  bits opt; try discriminate;
    try (intros [= <- <-]; cbn; auto).
  destruct optarg as [a|]; [|discriminate].
  destruct (strtol a) as [v tmp].
  destruct (nonempty tmp || _ || _); [|discriminate].
  intros [= <- <-]; cbn; auto.
Qed.

Lemma switch_no_crash w argv0 opt optarg c :
  (optarg <> None \/ In opt ["h"; "V"; "s"; "U"]%char) ->
  switch w argv0 opt optarg c <> Crash.
Proof.
  intros H. unfold switch. bits opt; try discriminate.
  destruct optarg as [a|].
  - destruct (strtol a) as [v tmp].
    destruct (nonempty tmp || _ || _); discriminate.
  - destruct H as [H | H]; [congruence|].
    cbn in H. intuition discriminate.
Qed.

Lemma switch_well_formed w argv0 opt optarg c c' :
  well_formed c ->
  (optarg <> None \/ In opt ["h"; "V"; "s"; "U"]%char) ->
  switch w argv0 opt optarg c = Continue c' ->
  well_formed c'.
Proof.
  intros (Wb & Wp & Ws & Wu) H. unfold switch, well_formed.
  bits opt; try discriminate;
    first
      [ intros [= <-]; cbn; repeat split; auto;
        solve [destruct H as [H | H];
               [assumption | cbn in H; intuition discriminate]]
      | idtac ].
  destruct optarg as [a|]; [|discriminate].
  destruct (strtol a) as [v tmp].
  destruct (nonempty tmp); [discriminate|]. cbn [orb].
  destruct (Z.eqb_spec (to_unsigned_int v) 0); [discriminate|]. cbn [orb].
  destruct (Z.leb_spec 0xffff (to_unsigned_int v)); [discriminate|].
  intros [= <-]; cbn. repeat split; try assumption.
  right. unfold to_unsigned_int in *.
  pose proof (Z.mod_pos_bound v (2 ^ 32) ltac:(lia)). lia.
Qed.

Lemma parse_loop_invariant w argv0 fuel : forall st c out r,
  well_formed c ->
  parse_loop fuel w argv0 st c = (out, r) ->
  forallb is_output out = true
  /\ match r with
     | inl s => s = Exited 0 \/ s = Exited 1 \/ s = Out_of_fuel
     | inr (c', _) => out = [] /\ well_formed c'
     end.
Proof.
  induction fuel as [|fuel IH]; intros st c out r W.
  - intros [= <- <-]. cbn. auto.
  - rewrite parse_loop_S.
    destruct (Getopt.getopt_long optstring opts st) as [o a st' | d st' | ops]
      eqn:G.
    + assert (H : a <> None \/ In o ["h"; "V"; "s"; "U"]%char).
      { destruct a; [left; discriminate | right].
        eapply getopt_long_optarg, G. }
      destruct (switch w argv0 o a c) as [c' | out' code |] eqn:E.
      * apply IH. eapply switch_well_formed; eassumption.
      * intros [= <- <-]. apply switch_return in E as [E [-> | ->]]; auto.
      * now elim (switch_no_crash w argv0 o a c H).
    + rewrite switch_question. intros [= <- <-]. cbn. auto.
    + intros [= <- <-]. cbn. auto.
Qed.

Lemma default_config_well_formed : well_formed default_config.
Proof. unfold well_formed. cbn. repeat split; auto. discriminate. Qed.

(** X7: whenever the argument loop hands a configuration over to the
    server, nothing has been written yet, there is at least one file,
    the bind address is set, the port is 0 (none given) or lies between 1
    and 65534, and the two switches are 0 or 1. *)
Theorem parsed_configuration_is_well_formed :
  forall w argv0 args out c files,
    parse_args w argv0 args = (out, inr (c, files)) ->
    out = [] /\ files <> [] /\ well_formed c.
Proof.
  intros w argv0 args out c files. unfold parse_args.
  destruct (parse_loop _ w argv0 _ default_config) as [o [s | [c' ops]]] eqn:E;
    [discriminate|].
  apply parse_loop_invariant in E as (_ & -> & W);
    [| apply default_config_well_formed].
  destruct ops as [|f ops]; [discriminate|].
  intros [= <- <- <-]. repeat split; try apply W. discriminate.
Qed.

Lemma parsed_configuration_is_well_formed_witness :
  parse_args sample_world "pshs" ["-b"; "127.0.0.1"; "-p"; "0x1f90"; "f"]
  = ([], inr (mk_config None (Some "127.0.0.1") 8080 0 1, ["f"]))
  /\ well_formed (mk_config None (Some "127.0.0.1") 8080 0 1).
Proof.
  split; [reflexivity|].
  apply (parsed_configuration_is_well_formed sample_world "pshs"
           ["-b"; "127.0.0.1"; "-p"; "0x1f90"; "f"] []
           (mk_config None (Some "127.0.0.1") 8080 0 1) ["f"] eq_refl).
Defined.


(** *** Resources *)

Lemma collect_app {A} (f : event -> option A) t1 t2 :
  collect f (t1 ++ t2) = (collect f t1 ++ collect f t2)%list.
Proof.
  induction t1 as [|e t1 IH]; [reflexivity|].
  cbn [List.app collect]. destruct (f e); cbn [List.app]; now rewrite IH.
Qed.

Lemma collect_output out :
  forallb is_output out = true ->
  collect acquires out = [] /\ collect frees out = [].
Proof.
  induction out as [|e out IH]; [now split|].
  cbn [forallb]. intros H. apply andb_true_iff in H as [He H].
  destruct (IH H) as [IA IF]. destruct e; try discriminate He; now split.
Qed.

Lemma parse_args_output w argv0 args out r :
  parse_args w argv0 args = (out, r) -> forallb is_output out = true.
Proof.
  unfold parse_args.
  destruct (parse_loop _ w argv0 _ default_config) as [o [s | [c ops]]] eqn:E;
    apply parse_loop_invariant in E as [E _];
    try apply default_config_well_formed.
  - now intros [= <- _].
  - destruct ops as [|f ops]; intros [= <- _]; [|assumption].
    rewrite forallb_app, E. reflexivity.
Qed.

Lemma collect_announcement w c p files addr :
  collect acquires (announcement w c p files addr) = []
  /\ collect frees (announcement w c p files addr) = [].
Proof.
  unfold announcement.
  destruct addr as [a|]; [|now split].
  destruct files as [|f [|g l]]; try (now split).
  destruct (evhttp_encode_uri w f); now split.
Qed.

(** X9: in every run of [main] that ends with an exit code, each
    resource that was acquired (event base, listener, content types,
    external address, TLS module, signal watchers) is acquired once and
    released once, and the releases come in the reverse order of the
    acquisitions, also when the start fails half way. *)
Theorem resources_released_in_reverse :
  forall w argv0 args code,
    snd (main w (argv0 :: args)) = Exited code ->
    collect frees (fst (main w (argv0 :: args)))
    = List.rev (collect acquires (fst (main w (argv0 :: args))))
    /\ NoDup (collect acquires (fst (main w (argv0 :: args)))).
Proof.
  intros w argv0 args code. rewrite main_run.
  destruct (parse_args w argv0 args) as [out [s | [c files]]] eqn:P;
    apply parse_args_output, collect_output in P as [PA PF];
    cbn [fst snd collect acquires frees].
  - intros _. rewrite PA, PF. split; [reflexivity | constructor].
  - rewrite !collect_app, PA, PF. cbn [List.app].
    unfold serve_closed.
    destruct (event_base_new_ok w);
      [| intros _; cbn; split; [reflexivity | constructor]].
    destruct (evhttp_new_ok w);
      [| intros _; cbn; split; [reflexivity | repeat constructor; auto]].
    destruct (evhttp_bind_socket_ok w _ _);
      [| intros _; cbn -[append]; split;
         [reflexivity | repeat constructor; cbn; intuition discriminate]].
    destruct (encoding_fails w files _); cbn [negb fst snd];
      [discriminate|]. intros _.
    rewrite !collect_app.
    destruct (collect_announcement w c (choose_port w (port c)) files
                (external_ip w (choose_port w (port c)) (bindip c) (upnp c)))
      as [-> ->].
    unfold startup_events, running_events, watcher_events, installed, sigs.
    cbn -[append]. world_cases w; cbn -[append];
      (split; [reflexivity | repeat constructor; cbn; intuition discriminate]).
Qed.

Lemma resources_released_in_reverse_witness :
  snd (main sighup_fails ["pshs"; "file"]) = Exited 0
  /\ collect frees (fst (main sighup_fails ["pshs"; "file"]))
     = [T_sigevent SIGUSR2; T_sigevent SIGUSR1; T_sigevent SIGTERM;
        T_sigevent SIGINT; T_ssl_mod; T_extip; T_ct; T_http; T_evb].
Proof.
  split; [reflexivity|].
  exact (eq_trans
           (proj1 (resources_released_in_reverse sighup_fails "pshs" ["file"] 0
                     eq_refl))
           eq_refl).
Defined.

(** *** One port, one set of routes *)

(** X10: once the event base and the listener exist, the socket is bound
    to the port given with [-p], or to the random port when none was
    given; when the binding succeeds that same port is the one written in
    the "Bound to" line, the one handed to the external address lookup,
    and the one in the announced URL, which names the address that lookup
    returned. *)
Theorem one_port_everywhere :
  forall w c files,
    event_base_new_ok w = true ->
    evhttp_new_ok w = true ->
    bound_port (fst (serve w c files [])) = Some (choose_port w (port c))
    /\ (port c <> 0 -> choose_port w (port c) = port c)
    /\ (evhttp_bind_socket_ok w (bindip c) (choose_port w (port c)) = true ->
        In (bound_line c (choose_port w (port c))) (fst (serve w c files []))
        /\ In (ExternalIP_ctor (choose_port w (port c)) (bindip c) (upnp c))
              (fst (serve w c files []))
        /\ forall u,
             announced (fst (serve w c files [])) = Some u ->
             exists a,
               external_ip w (choose_port w (port c)) (bindip c) (upnp c)
               = Some a
               /\ u = spec_uri w c a (choose_port w (port c)) files).
Proof.
  intros w c files Hevb Hhttp. rewrite serve_trace.
  unfold serve_closed. rewrite Hevb, Hhttp. cbn [negb].
  split; [| split].
  - destruct (evhttp_bind_socket_ok w _ _); [|reflexivity]. cbn [negb].
    now destruct (encoding_fails w files _).
  - intros H. unfold choose_port. now destruct (Z.eqb_spec (port c) 0).
  - intros ->. cbn [negb].
    assert (B : forall rest,
              In (bound_line c (choose_port w (port c)))
                (startup_events w c (choose_port w (port c))
                   (external_ip w (choose_port w (port c)) (bindip c) (upnp c))
                 ++ announcement w c (choose_port w (port c)) files
                      (external_ip w (choose_port w (port c)) (bindip c) (upnp c))
                 ++ rest)
              /\ In (ExternalIP_ctor (choose_port w (port c)) (bindip c) (upnp c))
                   (startup_events w c (choose_port w (port c))
                      (external_ip w (choose_port w (port c)) (bindip c) (upnp c))
                    ++ announcement w c (choose_port w (port c)) files
                         (external_ip w (choose_port w (port c)) (bindip c)
                            (upnp c))
                    ++ rest)).
    { intros rest. split.
      - apply in_or_app; right. apply in_or_app; left.
        unfold announcement. right; now left.
      - apply in_or_app; left. unfold startup_events. cbn. auto 20. }
    assert (R : announced (running_events w) = None).
    { unfold running_events, watcher_events, installed, sigs.
      cbn -[append]. world_cases w; reflexivity. }
    destruct (encoding_fails w files _) eqn:E; cbn [fst].
    + specialize (B []). rewrite app_nil_r in B.
      destruct B as [B1 B2]. repeat split; try assumption.
      intros u. revert E. unfold startup_events.
      announcement_cases w files; cbn -[append spec_uri]; discriminate.
    + destruct (B (running_events w)) as [B1 B2].
      repeat split; try assumption.
      intros u. revert E. unfold startup_events.
      announcement_cases w files; cbn -[append spec_uri running_events];
        try discriminate; try (rewrite R; discriminate);
        intros _ [= <-]; eexists; split; reflexivity.
Qed.

Lemma one_port_everywhere_witness :
  bound_port (fst (serve sample_world (with_port default_config 8080)
                     ["a.txt"] []))
  = Some 8080
  /\ announced (fst (serve sample_world (with_port default_config 8080)
                       ["a.txt"] []))
     = Some "http://198.51.100.7:8080/a.txt".
Proof.
  destruct (one_port_everywhere sample_world (with_port default_config 8080)
              ["a.txt"] eq_refl eq_refl) as (B & _ & H).
  split; [exact B|].
  destruct (H eq_refl) as (_ & _ & U).
  destruct (U "http://198.51.100.7:8080/a.txt" eq_refl) as (a & _ & _).
  reflexivity.
Defined.

(** X11: once the event base and the listener exist, the listener is
    fully configured before the socket is bound, and nothing changes it
    afterwards: GET and HEAD only, the file handler as the generic
    callback, and the index handler for the one index path. *)
Theorem routes_are_set_before_binding :
  forall w c files,
    event_base_new_ok w = true ->
    evhttp_new_ok w = true ->
    evhttp_of (before_bind (fst (serve w c files []))) = routes c
    /\ evhttp_of (fst (serve w c files [])) = routes c.
Proof.
  intros w c files Hevb Hhttp. rewrite serve_trace.
  unfold serve_closed. rewrite Hevb, Hhttp. cbn [negb].
  destruct (evhttp_bind_socket_ok w _ _); [| split; reflexivity].
  cbn [negb].
  assert (R : forall h, fold_left configure (running_events w) h = h).
  { intros h. unfold running_events, watcher_events, installed, sigs.
    cbn -[append]. world_cases w; reflexivity. }
  assert (A : forall h,
            fold_left configure
              (announcement w c (choose_port w (port c)) files
                 (external_ip w (choose_port w (port c)) (bindip c) (upnp c)))
              h = h).
  { intros h. announcement_cases w files; reflexivity. }
  unfold evhttp_of.
  destruct (encoding_fails w files _); cbn [fst];
    (split; [reflexivity|]);
    rewrite !fold_left_app, ?R, A; reflexivity.
Qed.

Lemma routes_are_set_before_binding_witness :
  evhttp_handle_request
    (evhttp_of (fst (serve sample_world
                       (mk_config (Some "pub") (Some "0.0.0.0") 0 0 1)
                       ["a.txt"] [])))
    EVHTTP_REQ_GET "/pub/"
  = Handled_by handle_index.
Proof.
  rewrite (proj2 (routes_are_set_before_binding sample_world
                    (mk_config (Some "pub") (Some "0.0.0.0") 0 0 1)
                    ["a.txt"] eq_refl eq_refl)).
  reflexivity.
Defined.

(** *** Long options *)

Lemma prefix_cons c s d t :
  String.prefix (String c s) (String d t)
  = if ascii_dec c d then String.prefix s t else false.
Proof. reflexivity. Qed.

Lemma eqb_cons c s d t :
  (String c s =? String d t)%string
  = if Ascii.eqb c d then (s =? t)%string else false.
Proof. reflexivity. Qed.

(** X12: the long options begin with six different letters, so every
    abbreviation of a long option, down to its first letter, is read as
    that option ([--p 80] sets the port); and each long option stands for
    a letter of the option string that takes an argument exactly when
    the long option does. *)
Theorem long_options_may_be_abbreviated :
  forall o nm,
    In o opts ->
    nm <> "" ->
    String.prefix nm (Getopt.name o) = true ->
    Getopt.lookup_long nm opts = Getopt.Found o
    /\ Getopt.optstring_lookup (Getopt.val o) optstring
       = Some (Getopt.has_arg o).
Proof.
  intros o nm Ho Hnm Hp.
  destruct nm as [|c nm]; [congruence|].
  cbn in Ho.
  destruct Ho as [<- | [<- | [<- | [<- | [<- | [<- | []]]]]]];
    (split; [| reflexivity]);
    cbn [Getopt.name] in Hp; rewrite prefix_cons in Hp;
    match type of Hp with
    | (if ascii_dec c ?x then _ else _) = true =>
        destruct (ascii_dec c x) as [-> | _]; [| discriminate Hp]
    end;
    unfold Getopt.lookup_long, opts; cbn [find filter Getopt.name];
    rewrite !prefix_cons, !eqb_cons, Hp;
    repeat match goal with
           | |- context [ascii_dec ?x ?y] =>
               destruct (ascii_dec x y); [try discriminate | try congruence]
           | |- context [Ascii.eqb ?x ?y] =>
               destruct (Ascii.eqb_spec x y); [try discriminate | try congruence]
           end;
    match goal with
    | |- context [(?a =? nm)%string] => destruct (a =? nm)%string
    end;
    reflexivity.
Qed.

Lemma long_options_may_be_abbreviated_witness :
  In (Getopt.mk_option "port" Getopt.required_argument "p") opts
  /\ "p" <> ""
  /\ Getopt.lookup_long "p" opts
     = Getopt.Found (Getopt.mk_option "port" Getopt.required_argument "p").
Proof.
  split; [cbn; auto | split; [discriminate|]].
  apply (long_options_may_be_abbreviated
           (Getopt.mk_option "port" Getopt.required_argument "p") "p");
    [cbn; auto | discriminate | reflexivity].
Defined.

(** *** From the command line to the bound socket *)





(** *** Port numbers beyond 32 bits *)

Lemma strtol_dec_long n : 1 <= n <= LONG_MAX -> strtol (dec n) = (n, "").
Proof.
  intros Hn. unfold LONG_MAX in Hn. destruct n as [|p|p]; try lia.
  unfold dec. cbn [Z.to_int NilZero.string_of_int].
  pose proof (to_uint_no_leading_zero p) as Hz.
  pose proof (DecimalPos.Unsigned.of_to p) as Hp.
  pose proof (read_digits_uint (Pos.to_uint p) false) as Hr.
  rewrite Hp in Hr. cbn [Z.of_N] in Hr.
  unfold NilZero.string_of_uint.
  destruct (Pos.to_uint p) as [|d|d|d|d|d|d|d|d|d|d] eqn:E;
    [now apply DecimalPos.Unsigned.to_uint_nonnil in E
    | now elim (Hz d) | ..];
    cbn [NilEmpty.string_of_uint] in Hr |- *;
    unfold strtol; cbn [skip_space];
    cbn -[read_digits NilEmpty.string_of_uint clamp_long];
    rewrite Hr; unfold clamp_long, LONG_MIN, LONG_MAX;
    destruct (Z.ltb_spec (Zpos p) (- 2 ^ 63)); try lia;
    destruct (Z.ltb_spec (2 ^ 63 - 1) (Zpos p)); try lia; reflexivity.
Qed.

(** X14: the port is checked after the [long] that [strtol] returns has
    been converted to [unsigned int]: with a 64 bit [long], a decimal
    number that exceeds a port number from 1 to 65534 by a multiple of
    2^32 is not rejected but accepted as that port. *)
Theorem port_is_reduced_modulo_2_32 :
  forall w argv0 f n k rest no c,
    1 <= n <= 65534 ->
    0 <= k ->
    n + k * 2 ^ 32 <= LONG_MAX ->
    parse_loop (S f) w argv0
      (Getopt.mk_state ("-p" :: dec (n + k * 2 ^ 32) :: rest) "" no) c
    = parse_loop f w argv0 (Getopt.mk_state rest "" no) (with_port c n).
Proof.
  intros w argv0 f n k rest no c Hn Hk Hmax.
  rewrite parse_loop_S, getopt_short_p, switch_port.
  rewrite strtol_dec_long by lia.
  unfold to_unsigned_int. rewrite Z_mod_plus_full, Z.mod_small by lia.
  cbn [nonempty orb].
  destruct (Z.eqb_spec n 0); [lia|].
  destruct (Z.leb_spec 0xffff n); [lia|]. reflexivity.
Qed.

Lemma port_is_reduced_modulo_2_32_witness :
  1 <= 80 <= 65534 /\ 0 <= 1 /\ 80 + 1 * 2 ^ 32 <= LONG_MAX
  /\ parse_loop 9 sample_world "pshs"
       (Getopt.mk_state ["-p"; "4294967376"; "f"] "" []) default_config
     = ([], inr (with_port default_config 80, ["f"])).
Proof.
  split; [lia | split; [lia | split; [unfold LONG_MAX; lia|]]].
  exact (eq_trans
           (port_is_reduced_modulo_2_32 sample_world "pshs" 8 80 1 ["f"] []
              default_config ltac:(lia) ltac:(lia)
              ltac:(unfold LONG_MAX; lia))
           eq_refl).
Defined.
